(** * Function execution dispatch of [IFunction.cpp]

    A shallow embedding of [dbms/src/Functions/IFunction.cpp]: the
    dictionary (low cardinality) strippers, [wrapInNullable], the default
    implementations for constant and Nullable arguments, the outer
    [PreparedFunctionImpl::execute] with its result cache, and
    [FunctionBuilderImpl::getReturnType]. *)

From Stdlib Require Import List Bool Arith ZArith Lia.
From Stdlib Require String.
Import ListNotations.
Set Warnings "-register-all".

(** ** Data types *)

Inductive ground := GUInt8 | GInt32 | GString | GNothing.

Inductive DataType :=
| TBase (g : ground)
| TNullable (nested : DataType)
| TArray (nested : DataType)
| TTuple (elems : list DataType) (names : option (list String.string))
| TLowCardinality (dictionary_type : DataType).

(** [IDataType::isNullable]. *)
Definition type_isNullable (t : DataType) : bool :=
  match t with TNullable _ => true | _ => false end.

(** [IDataType::onlyNull]: [Nullable(Nothing)]. *)
Definition type_onlyNull (t : DataType) : bool :=
  match t with TNullable (TBase GNothing) => true | _ => false end.

(** [removeNullable] and [makeNullable] on types. *)
Definition removeNullable_type (t : DataType) : DataType :=
  match t with TNullable n => n | _ => t end.

Definition makeNullable_type (t : DataType) : DataType :=
  if type_isNullable t then t else TNullable t.

(** ** Columns

    Values of a dense column are integers (strings are encoded as codes).
    [CWithDictionary dict indexes shared] is a [ColumnWithDictionary]:
    [dict] is the nested column of its unique dictionary. *)

Inductive Column :=
| CVector (values : list Z)
| CConst (data : Column) (s : nat)
| CNullable (nested : Column) (null_map : list bool)
| CWithDictionary (dictionary : Column) (indexes : list nat) (shared : bool)
| CArray (data : Column) (offsets : list nat)
| CTuple (columns : list Column).

(** Induction principle that also covers the columns of a tuple. *)
Section ColumnInd.
Variable P : Column -> Prop.
Hypothesis HVector : forall v, P (CVector v).
Hypothesis HConst : forall d s, P d -> P (CConst d s).
Hypothesis HNullable : forall c m, P c -> P (CNullable c m).
Hypothesis HDict : forall d ix sh, P d -> P (CWithDictionary d ix sh).
Hypothesis HArray : forall d o, P d -> P (CArray d o).
Hypothesis HTuple : forall cs, Forall P cs -> P (CTuple cs).

Fixpoint Column_ind' (c : Column) : P c :=
  match c with
  | CVector v => HVector v
  | CConst d s => HConst d s (Column_ind' d)
  | CNullable n m => HNullable n m (Column_ind' n)
  | CWithDictionary d ix sh => HDict d ix sh (Column_ind' d)
  | CArray d o => HArray d o (Column_ind' d)
  | CTuple cs =>
      HTuple cs ((fix go (l : list Column) : Forall P l :=
                    match l with
                    | [] => Forall_nil P
                    | x :: r => Forall_cons x (Column_ind' x) (go r)
                    end) cs)
  end.
End ColumnInd.

Section TypeInd.
Variable P : DataType -> Prop.
Hypothesis HBase : forall g, P (TBase g).
Hypothesis HNullable : forall t, P t -> P (TNullable t).
Hypothesis HArray : forall t, P t -> P (TArray t).
Hypothesis HTuple : forall ts nm, Forall P ts -> P (TTuple ts nm).
Hypothesis HLC : forall t, P t -> P (TLowCardinality t).

Fixpoint DataType_ind' (t : DataType) : P t :=
  match t with
  | TBase g => HBase g
  | TNullable n => HNullable n (DataType_ind' n)
  | TArray n => HArray n (DataType_ind' n)
  | TTuple ts nm =>
      HTuple ts nm ((fix go (l : list DataType) : Forall P l :=
                       match l with
                       | [] => Forall_nil P
                       | x :: r => Forall_cons x (DataType_ind' x) (go r)
                       end) ts)
  | TLowCardinality d => HLC d (DataType_ind' d)
  end.
End TypeInd.

(** [IColumn::size]. *)
Fixpoint size (c : Column) : nat :=
  match c with
  | CVector v => length v
  | CConst _ s => s
  | CNullable n _ => size n
  | CWithDictionary _ ix _ => length ix
  | CArray _ offs => length offs
  | CTuple [] => 0
  | CTuple (c0 :: _) => size c0
  end.

Definition isColumnConst (c : Column) : bool :=
  match c with CConst _ _ => true | _ => false end.

Definition isColumnNullable (c : Column) : bool :=
  match c with CNullable _ _ => true | _ => false end.

(** [IColumn::isNullAt]. *)
Fixpoint isNullAt (c : Column) (i : nat) : bool :=
  match c with
  | CConst d _ => isNullAt d 0
  | CNullable _ m => nth i m false
  | _ => false
  end.

(** Modelled from the spec: [IColumn::onlyNull] of the column
    primitives, "a Constant whose value is Null" (section 4.B). *)
Definition onlyNull (c : Column) : bool :=
  match c with CConst d _ => isNullAt d 0 | _ => false end.

(** Offsets of [ColumnArray]: row [i] spans [[array_start i, array_end i)]. *)
Definition array_start (offs : list nat) (i : nat) : nat :=
  match i with 0 => 0 | S j => nth j offs 0 end.

Definition array_end (offs : list nat) (i : nat) : nat := nth i offs 0.

Fixpoint cumulative (acc : nat) (ls : list nat) : list nat :=
  match ls with
  | [] => []
  | l :: r => (acc + l) :: cumulative (acc + l) r
  end.

(** Modelled from the spec: [IColumn::index], "(a.index(b))[i] = a[b[i]]"
    (section 6), for each kind of column. *)
Fixpoint index (c : Column) (idx : list nat) : Column :=
  match c with
  | CVector v => CVector (map (fun i => nth i v 0%Z) idx)
  | CConst d _ => CConst d (length idx)
  | CNullable n m => CNullable (index n idx) (map (fun i => nth i m false) idx)
  | CWithDictionary d ix sh => CWithDictionary d (map (fun i => nth i ix 0) idx) sh
  | CArray d offs =>
      let ranges := map (fun i => seq (array_start offs i)
                                      (array_end offs i - array_start offs i)) idx in
      CArray (index d (concat ranges)) (cumulative 0 (map (@length nat) ranges))
  | CTuple cs => CTuple (map (fun x => index x idx) cs)
  end.

(** [ColumnWithDictionary::convertToFullColumn]. *)
Definition convertToFullColumn_dict (dictionary : Column) (indexes : list nat) : Column :=
  index dictionary indexes.

(** [IColumn::convertToFullColumnIfConst]: a constant is replicated. *)
Definition convertToFullColumnIfConst (c : Column) : Column :=
  match c with
  | CConst d s => index d (repeat 0 s)
  | _ => c
  end.

(** ** Encoding strippers (lines 106-155) *)

Fixpoint recursiveRemoveLowCardinality_type (t : DataType) : DataType :=
  match t with
  | TArray n => TArray (recursiveRemoveLowCardinality_type n)
  | TTuple es names => TTuple (map recursiveRemoveLowCardinality_type es) names
  | TLowCardinality d => d
  | _ => t
  end.

Fixpoint recursiveRemoveLowCardinality (c : Column) : Column :=
  match c with
  | CArray d offs => CArray (recursiveRemoveLowCardinality d) offs
  | CConst d s => CConst (recursiveRemoveLowCardinality d) s
  | CTuple cs => CTuple (map recursiveRemoveLowCardinality cs)
  | CWithDictionary d ix _ => convertToFullColumn_dict d ix
  | _ => c
  end.

(** Types accepted by [DataTypeLowCardinality]: the dictionary type of a
    [LowCardinality] type holds no [LowCardinality] itself. *)
Fixpoint lc_free (t : DataType) : bool :=
  match t with
  | TBase _ => true
  | TNullable n | TArray n => lc_free n
  | TTuple es _ => forallb lc_free es
  | TLowCardinality _ => false
  end.

Fixpoint wf_type (t : DataType) : bool :=
  match t with
  | TBase _ | TNullable _ => true
  | TArray n => wf_type n
  | TTuple es _ => forallb wf_type es
  | TLowCardinality d => lc_free d
  end.

(** A column holding no dictionary-encoded column anywhere. *)
Fixpoint dict_free (c : Column) : bool :=
  match c with
  | CVector _ => true
  | CConst d _ | CNullable d _ | CArray d _ => dict_free d
  | CWithDictionary _ _ _ => false
  | CTuple cs => forallb dict_free cs
  end.

(** Dictionaries of a [ColumnWithDictionary] hold plain values. *)
Fixpoint wf_column (c : Column) : bool :=
  match c with
  | CVector _ | CNullable _ _ => true
  | CConst d _ | CArray d _ => wf_column d
  | CWithDictionary d _ _ => dict_free d && negb (isColumnConst d)
  | CTuple cs => forallb wf_column cs
  end.

(** ** Errors and the result of an execution *)

Inductive ErrorCode :=
| ILLEGAL_COLUMN
| NUMBER_OF_ARGUMENTS_DOESNT_MATCH
| LOGICAL_ERROR
| BAD_GET
| ILLEGAL_TYPE_OF_ARGUMENT
| RECURSION_DEPTH_EXCEEDED.

Inductive Res (A : Type) := Ok (a : A) | Err (e : ErrorCode).
Arguments Ok {A} a.
Arguments Err {A} e.

Definition bind {A B} (m : Res A) (k : A -> Res B) : Res B :=
  match m with Ok a => k a | Err e => Err e end.

Notation "'let*' x ':=' m 'in' k" := (bind m (fun x => k))
  (at level 200, x pattern, m at level 100, k at level 200).

(** ** Blocks *)

Record ColumnWithTypeAndName := { column : option Column; type : DataType }.

Definition Block := list ColumnWithTypeAndName.

Definition empty_slot : ColumnWithTypeAndName := {| column := None; type := TBase GNothing |}.

(** [Block::getByPosition] (positions are assumed to be in range). *)
Definition getByPosition (b : Block) (i : nat) : ColumnWithTypeAndName := nth i b empty_slot.

Fixpoint set_nth {A} (l : list A) (i : nat) (x : A) : list A :=
  match l, i with
  | [], _ => []
  | _ :: r, 0 => x :: r
  | y :: r, S j => y :: set_nth r j x
  end.

(** [block.getByPosition(i).column = c]. *)
Definition setColumn (b : Block) (i : nat) (c : Column) : Block :=
  set_nth b i {| column := Some c; type := type (getByPosition b i) |}.

Definition slot_isConst (s : ColumnWithTypeAndName) : bool :=
  match column s with Some c => isColumnConst c | None => false end.

(** Modelled from the spec: [Block::rows], "the common length of its
    non-constant columns (all constant columns report the same logical
    length)" (section 3). *)
Definition rows (b : Block) : nat :=
  match find (fun s => match column s with Some c => negb (isColumnConst c) | None => false end) b with
  | Some {| column := Some c |} => size c
  | _ =>
      match find (fun s => match column s with Some _ => true | None => false end) b with
      | Some {| column := Some c |} => size c
      | _ => 0
      end
  end.

(** ** Functions

    The capability flags and the kernel of a function.  [executeImpl]
    receives the argument slots, the type of the result slot and the
    number of rows, and returns the column it writes to the result slot. *)

Record IFunction := {
  useDefaultImplementationForConstants : bool;
  useDefaultImplementationForNulls : bool;
  useDefaultImplementationForColumnsWithDictionary : bool;
  canBeExecutedOnDefaultArguments : bool;
  canBeExecutedOnLowCardinalityDictionary : bool;
  getArgumentsThatAreAlwaysConstant : list nat;
  isVariadic : bool;
  getNumberOfArguments : nat;
  getReturnTypeImpl : list DataType -> DataType;
  executeImpl : list ColumnWithTypeAndName -> DataType -> nat -> Column
}.

Definition member (x : nat) (l : list nat) : bool := existsb (Nat.eqb x) l.

(** Kernel calls are recorded by their number of rows. *)
Definition Trace := list nat.

Definition executeImpl_call (f : IFunction) (b : Block) (args : list nat) (result n : nat)
  : Column * Trace :=
  (executeImpl f (map (getByPosition b) args) (type (getByPosition b result)) n, [n]).

(** ** Null composition (lines 158-216) *)

(** Modelled from the spec: one row of the default value of a type. *)
Fixpoint default_column (t : DataType) : Column :=
  match t with
  | TBase _ => CVector [0%Z]
  | TNullable n => CNullable (default_column n) [false]
  | TArray n => CArray (index (default_column n) []) [0]
  | TTuple es _ => CTuple (map default_column es)
  | TLowCardinality d => CWithDictionary (default_column d) [0] false
  end.

(** Modelled from the spec: [IDataType::createColumnConst(n, Null())],
    "Constant(Null, n_rows) of the result type" (section 4.D.2).  The NULL
    is inserted into a column of the type: a [Nullable] column takes it; the
    other columns of this model (numbers, strings, arrays, tuples,
    dictionaries) refuse it, as [Field::get] does, with [BAD_GET]. *)
Definition createColumnConstNull (t : DataType) (n : nat) : Res Column :=
  match t with
  | TNullable u => Ok (CConst (CNullable (default_column u) [true]) n)
  | _ => Err BAD_GET
  end.

(** Modelled from the spec: the [ColumnNullable] constructor.  A Constant
    values column is materialized first ("a Nullable wrapping a Constant is
    disallowed", section 4.B); a values column that is still Constant, or
    that is Nullable, is refused. *)
Definition ColumnNullable_create (nested : Column) (null_map : list bool) : Res Column :=
  let full := convertToFullColumnIfConst nested in
  if isColumnNullable full || isColumnConst full then Err ILLEGAL_COLUMN
  else Ok (CNullable full null_map).

(** [result_null_map[i] = 1] wherever [src_null_map[i]] is set, for every
    row of the accumulated map. *)
Definition or_null_map (acc m : list bool) : list bool :=
  map (fun i => nth i acc false || nth i m false) (seq 0 (length acc)).

(** The loop over the arguments: [inl] is the early return of a constant
    NULL, [inr] the accumulated null map. *)
Fixpoint wrap_loop (b : Block) (args : list nat) (result n : nat)
    (acc : option (list bool)) : Res Column + option (list bool) :=
  match args with
  | [] => inr acc
  | arg :: rest =>
      let elem := getByPosition b arg in
      if negb (type_isNullable (type elem)) then wrap_loop b rest result n acc
      else
        match column elem with
        | Some c =>
            if onlyNull c then inl (createColumnConstNull (type (getByPosition b result)) n)
            else if isColumnConst c then wrap_loop b rest result n acc
            else
              match c with
              | CNullable _ m =>
                  wrap_loop b rest result n
                    (Some match acc with None => m | Some r => or_null_map r m end)
              | _ => wrap_loop b rest result n acc
              end
        | None => wrap_loop b rest result n acc
        end
  end.

Definition wrapInNullable (src : Column) (b : Block) (args : list nat) (result n : nat)
  : Res Column :=
  if onlyNull src then Ok src
  else
    let '(src_not_nullable, acc0) :=
      match src with CNullable c m => (c, Some m) | _ => (src, None) end in
    match wrap_loop b args result n acc0 with
    | inl c => c
    | inr None => ColumnNullable_create src (repeat false (size src))
    | inr (Some m) => ColumnNullable_create src_not_nullable m
    end.

(** ** Default implementations (lines 219-354) *)

Definition allArgumentsAreConstants (b : Block) (args : list nat) : bool :=
  forallb (fun a => slot_isConst (getByPosition b a)) args.

Definition is_empty {A} (l : list A) : bool := match l with [] => true | _ => false end.

(** Modelled from the spec: [createBlockWithNestedColumns], "every
    Nullable argument is replaced by its inner values (types become
    non-Nullable)" (section 4.D.2). *)
Definition nested_slot (s : ColumnWithTypeAndName) : ColumnWithTypeAndName :=
  if type_isNullable (type s) then
    {| type := removeNullable_type (type s);
       column := match column s with
                 | Some (CNullable c _) => Some c
                 | Some (CConst (CNullable c _) k) => Some (CConst c k)
                 | other => other
                 end |}
  else s.

Fixpoint nested_columns_from (i : nat) (b : Block) (args : list nat) : Block :=
  match b with
  | [] => []
  | s :: r => (if member i args then nested_slot s else s) :: nested_columns_from (S i) r args
  end.

Definition createBlockWithNestedColumns (b : Block) (args : list nat) : Block :=
  nested_columns_from 0 b args.

(** The recursive entry [executeWithoutColumnsWithDictionary], as passed
    to the default implementations. *)
Definition Exec := Block -> list nat -> nat -> nat -> Res (Column * Trace).

Definition unwrap_constant (s : ColumnWithTypeAndName) : ColumnWithTypeAndName :=
  {| column := match column s with Some (CConst d _) => Some d | c => c end;
     type := type s |}.

Definition defaultImplementationForConstantArguments (rec : Exec) (f : IFunction)
    (b : Block) (args : list nat) (result n : nat) : Res (option (Column * Trace)) :=
  let always := getArgumentsThatAreAlwaysConstant f in
  if existsb (fun arg_num => (arg_num <? length args)
                && negb (slot_isConst (getByPosition b (nth arg_num args 0)))) always
  then Err ILLEGAL_COLUMN
  else if is_empty args || negb (useDefaultImplementationForConstants f)
          || negb (allArgumentsAreConstants b args)
  then Ok None
  else
    let positions := seq 0 (length args) in
    let temporary_args :=
      map (fun arg_num =>
             let s := getByPosition b (nth arg_num args 0) in
             if member arg_num always then s else unwrap_constant s) positions in
    let have_converted_columns := existsb (fun arg_num => negb (member arg_num always)) positions in
    if negb have_converted_columns then Err NUMBER_OF_ARGUMENTS_DOESNT_MATCH
    else
      let temporary_block := temporary_args ++ [getByPosition b result] in
      let* (c, tr) := rec temporary_block positions (length args) (rows temporary_block) in
      Ok (Some (CConst c n, tr)).

Definition defaultImplementationForNulls (rec : Exec) (f : IFunction)
    (b : Block) (args : list nat) (result n : nat) : Res (option (Column * Trace)) :=
  if is_empty args || negb (useDefaultImplementationForNulls f) then Ok None
  else
    let types := map (fun a => type (getByPosition b a)) args in
    if existsb type_onlyNull types then
      let* c := createColumnConstNull (type (getByPosition b result)) n in
      Ok (Some (c, []))
    else if existsb type_isNullable types then
      let temporary_block := createBlockWithNestedColumns b args in
      let* (c, tr) := rec temporary_block args result (rows temporary_block) in
      let* w := wrapInNullable c b args result n in
      Ok (Some (w, tr))
    else Ok None.

(** The recursion depth is bounded by [fuel]; [execute] supplies a bound
    above the nesting of the argument columns and types. *)
Fixpoint executeWithoutColumnsWithDictionary (fuel : nat) (f : IFunction)
    (b : Block) (args : list nat) (result n : nat) : Res (Column * Trace) :=
  match fuel with
  | 0 => Err RECURSION_DEPTH_EXCEEDED
  | S k =>
      let rec := executeWithoutColumnsWithDictionary k f in
      bind (defaultImplementationForConstantArguments rec f b args result n) (fun r1 =>
      match r1 with
      | Some x => Ok x
      | None =>
          bind (defaultImplementationForNulls rec f b args result n) (fun r2 =>
          match r2 with
          | Some x => Ok x
          | None => Ok (executeImpl_call f b args result n)
          end)
      end)
  end.

(** ** Dictionary result cache (lines 45-96) *)

Fixpoint list_eqb {A} (eqb : A -> A -> bool) (l l' : list A) : bool :=
  match l, l' with
  | [], [] => true
  | x :: r, y :: r' => eqb x y && list_eqb eqb r r'
  | _, _ => false
  end.

Fixpoint column_eqb (a b : Column) : bool :=
  match a, b with
  | CVector u, CVector v => list_eqb Z.eqb u v
  | CConst d s, CConst d' s' => column_eqb d d' && Nat.eqb s s'
  | CNullable c m, CNullable c' m' => column_eqb c c' && list_eqb Bool.eqb m m'
  | CWithDictionary d ix sh, CWithDictionary d' ix' sh' =>
      column_eqb d d' && list_eqb Nat.eqb ix ix' && Bool.eqb sh sh'
  | CArray d o, CArray d' o' => column_eqb d d' && list_eqb Nat.eqb o o'
  | CTuple cs, CTuple cs' =>
      (fix go (l l' : list Column) : bool :=
         match l, l' with
         | [], [] => true
         | x :: r, y :: r' => column_eqb x y && go r r'
         | _, _ => false
         end) cs cs'
  | _, _ => false
  end.

(** [DictionaryKey {hash, size}]: dictionaries with the same hash are
    assumed to hold the same keys, so the hash is modelled by the
    dictionary's content. *)
Definition DictionaryKey := (Column * nat)%type.

Definition key_eqb (k k' : DictionaryKey) : bool :=
  column_eqb (fst k) (fst k') && Nat.eqb (snd k) (snd k').

Record CachedValues := {
  dictionary_holder : Column;
  function_result : Column;
  index_mapping : list nat
}.

(** Modelled from the spec: [LRUCache], "strict LRU on entry count"
    (section 4.C); the most recently used entry comes first. *)
Record LowCardinalityResultCache := {
  cache_size : nat;
  cache_entries : list (DictionaryKey * CachedValues)
}.

Definition cache_remove (k : DictionaryKey) (l : list (DictionaryKey * CachedValues)) :=
  filter (fun e => negb (key_eqb (fst e) k)) l.

Definition cache_get (c : LowCardinalityResultCache) (k : DictionaryKey)
  : option CachedValues * LowCardinalityResultCache :=
  match find (fun e => key_eqb (fst e) k) (cache_entries c) with
  | Some (_, v) =>
      (Some v, {| cache_size := cache_size c;
                  cache_entries := (k, v) :: cache_remove k (cache_entries c) |})
  | None => (None, c)
  end.

Definition cache_getOrSet (c : LowCardinalityResultCache) (k : DictionaryKey) (v : CachedValues)
  : CachedValues * LowCardinalityResultCache :=
  match find (fun e => key_eqb (fst e) k) (cache_entries c) with
  | Some (_, v') =>
      (v', {| cache_size := cache_size c;
              cache_entries := (k, v') :: cache_remove k (cache_entries c) |})
  | None =>
      (v, {| cache_size := cache_size c;
             cache_entries := firstn (cache_size c) ((k, v) :: cache_entries c) |})
  end.

(** ** Dictionary encoding helpers *)

(** Equality of rows [i] and [j] of one column. *)
Fixpoint row_eqb (c : Column) (i j : nat) : bool :=
  match c with
  | CVector v => Z.eqb (nth i v 0%Z) (nth j v 0%Z)
  | CConst _ _ => true
  | CNullable n m =>
      let ni := nth i m false in
      let nj := nth j m false in
      (ni && nj) || (negb ni && negb nj && row_eqb n i j)
  | CWithDictionary d ix _ => row_eqb d (nth i ix 0) (nth j ix 0)
  | CArray d offs =>
      let li := array_end offs i - array_start offs i in
      let lj := array_end offs j - array_start offs j in
      Nat.eqb li lj
      && forallb (fun k => row_eqb d (array_start offs i + k) (array_start offs j + k)) (seq 0 li)
  | CTuple cs => forallb (fun x => row_eqb x i j) cs
  end.

Fixpoint position_of (p : nat -> bool) (l : list nat) : option nat :=
  match l with
  | [] => None
  | x :: r => if p x then Some 0 else option_map S (position_of p r)
  end.

(** Distinct representatives (first occurrences) of the given rows under
    [eq], and for every row the position of its representative. *)
Fixpoint dedup_loop (eq : nat -> nat -> bool) (todo reps acc : list nat) : list nat * list nat :=
  match todo with
  | [] => (reps, rev acc)
  | i :: r =>
      match position_of (fun j => eq j i) reps with
      | Some p => dedup_loop eq r reps (p :: acc)
      | None => dedup_loop eq r (reps ++ [i]) (length reps :: acc)
      end
  end.

(** [IColumn::index] of an index column: [(a.index(b))[i] = a[b[i]]]. *)
Definition index_indexes (a b : list nat) : list nat := map (fun i => nth i a 0) b.

(** [ColumnUnique::uniqueInsertRangeFrom] on a column created for the
    dictionary type [t].  Modelled from the spec: "a fresh unique dictionary
    from keys" with "indexes into the new dict, parallel to keys"
    (section 4.D.1 f); keys of another type are refused. *)
Fixpoint has_type (c : Column) (t : DataType) : bool :=
  match c, t with
  | CVector _, TBase _ => true
  | CConst d _, _ => has_type d t
  | CNullable n _, TNullable tn => has_type n tn
  | CWithDictionary d _ _, TLowCardinality td => has_type d td
  | CArray d _, TArray td => has_type d td
  | CTuple cs, TTuple ts _ =>
      (fix go (l : list Column) (l' : list DataType) : bool :=
         match l, l' with
         | [], [] => true
         | x :: r, y :: r' => has_type x y && go r r'
         | _, _ => false
         end) cs ts
  | _, _ => false
  end.

Definition uniqueInsertRangeFrom (t : DataType) (keys : Column) : Res (Column * list nat) :=
  if has_type keys t then
    let '(reps, idx) := dedup_loop (row_eqb keys) (seq 0 (size keys)) [] [] in
    Ok (index keys reps, idx)
  else Err LOGICAL_ERROR.

(** Modelled from the spec: [getMinimalDictionaryEncodedColumn], "a
    minimal dictionary encoding restricted to referenced rows" with new
    indexes (section 4.D.1 c). *)
Definition getMinimalDictionaryEncodedColumn (d : Column) (ix : list nat) : Column * list nat :=
  let '(reps, idx) := dedup_loop Nat.eqb ix [] [] in
  (index d reps, idx).

(** ** Outer entry (lines 356-509) *)

Fixpoint findLowCardinalityArgument (b : Block) (args : list nat) (found : option Column)
  : Res (option Column) :=
  match args with
  | [] => Ok found
  | a :: r =>
      match column (getByPosition b a) with
      | Some (CWithDictionary d ix sh) =>
          match found with
          | Some _ => Err LOGICAL_ERROR
          | None => findLowCardinalityArgument b r (Some (CWithDictionary d ix sh))
          end
      | _ => findLowCardinalityArgument b r found
      end
  end.

(** The first loop: indexes and dictionary size of the dictionary argument. *)
Fixpoint dictionary_indexes (b : Block) (args : list nat) (indexes : option (list nat)) (num_rows : nat)
  : Res (option (list nat) * nat) :=
  match args with
  | [] => Ok (indexes, num_rows)
  | a :: r =>
      match column (getByPosition b a) with
      | Some (CWithDictionary d ix _) =>
          match indexes with
          | Some _ => Err LOGICAL_ERROR
          | None => dictionary_indexes b r (Some ix) (size d)
          end
      | _ => dictionary_indexes b r indexes num_rows
      end
  end.

(** Modelled from the spec: [ColumnConst::removeLowCardinality] followed by
    [cloneResized(num_rows)], "unwrap ... after strip_dict, resize to the
    dictionary's row count" (section 4.D.1 c): the constant keeps its value,
    stripped of dictionaries, and gets [num_rows] rows. *)
Definition const_removeLowCardinality_cloneResized (d : Column) (num_rows : nat) : Column :=
  CConst (recursiveRemoveLowCardinality d) num_rows.

(** The second loop. *)
Fixpoint replace_loop (b : Block) (args : list nat) (num_rows : nat)
    (can_be_executed_on_default_arguments : bool) (indexes : option (list nat))
  : Res (Block * option (list nat)) :=
  match args with
  | [] => Ok (b, indexes)
  | a :: r =>
      let s := getByPosition b a in
      match column s with
      | Some (CConst d _) =>
          replace_loop
            (set_nth b a {| column := Some (const_removeLowCardinality_cloneResized d num_rows);
                            type := type s |})
            r num_rows can_be_executed_on_default_arguments indexes
      | Some (CWithDictionary d ix _) =>
          match type s with
          | TLowCardinality dt =>
              if can_be_executed_on_default_arguments then
                replace_loop (set_nth b a {| column := Some d; type := dt |})
                  r num_rows can_be_executed_on_default_arguments indexes
              else
                let '(md, mix) := getMinimalDictionaryEncodedColumn d ix in
                replace_loop (set_nth b a {| column := Some md; type := dt |})
                  r num_rows can_be_executed_on_default_arguments (Some mix)
          | _ => Err LOGICAL_ERROR
          end
      | _ => replace_loop b r num_rows can_be_executed_on_default_arguments indexes
      end
  end.

Definition replaceColumnsWithDictionaryByNestedAndGetDictionaryIndexes
    (b : Block) (args : list nat) (can_be_executed_on_default_arguments : bool)
  : Res (Block * option (list nat)) :=
  let* (indexes, num_rows) := dictionary_indexes b args None 0 in
  replace_loop b args num_rows can_be_executed_on_default_arguments indexes.

Definition strip_slot (s : ColumnWithTypeAndName) : ColumnWithTypeAndName :=
  {| column := option_map recursiveRemoveLowCardinality (column s);
     type := recursiveRemoveLowCardinality_type (type s) |}.

Definition convertColumnsWithDictionaryToFull (b : Block) (args : list nat) : Block :=
  fold_left (fun bl a => set_nth bl a (strip_slot (getByPosition bl a))) args b.

(** [block.cloneWithoutColumns()] with the argument columns copied in. *)
Definition block_without_dicts_of (b : Block) (args : list nat) : Block :=
  fold_left (fun bl a => set_nth bl a {| column := column (getByPosition b a);
                                          type := type (getByPosition bl a) |})
            args (map (fun s => {| column := None; type := type s |}) b).

Fixpoint column_depth (c : Column) : nat :=
  match c with
  | CVector _ => 1
  | CConst d _ | CNullable d _ | CWithDictionary d _ _ | CArray d _ => S (column_depth d)
  | CTuple cs => S (list_max (map column_depth cs))
  end.

Fixpoint type_depth (t : DataType) : nat :=
  match t with
  | TBase _ => 1
  | TNullable d | TArray d | TLowCardinality d => S (type_depth d)
  | TTuple ts _ => S (list_max (map type_depth ts))
  end.

Definition slot_depth (s : ColumnWithTypeAndName) : nat :=
  type_depth (type s) + match column s with Some c => column_depth c | None => 0 end.

(** A bound on the recursion depth of the default implementations. *)
Definition dispatch_fuel (b : Block) (args : list nat) : nat :=
  S (S (list_sum (map (fun a => slot_depth (getByPosition b a)) args))).

Definition execute (f : IFunction) (cache : option LowCardinalityResultCache)
    (b : Block) (args : list nat) (result n : nat)
  : Res (Block * option LowCardinalityResultCache * Trace) :=
  let fuel := dispatch_fuel b args in
  if useDefaultImplementationForColumnsWithDictionary f then
    let res := getByPosition b result in
    let block_without_dicts := block_without_dicts_of b args in
    match type res with
    | TLowCardinality dictionary_type =>
        let* low_cardinality_column := findLowCardinalityArgument b args None in
        let can_be_executed_on_default_arguments := canBeExecutedOnDefaultArguments f in
        let lc := match low_cardinality_column with
                  | Some (CWithDictionary d ix sh) => Some (d, ix, sh)
                  | _ => None
                  end in
        let use_cache := match cache, lc with
                         | Some _, Some (_, _, true) => can_be_executed_on_default_arguments
                         | _, _ => false
                         end in
        let key : DictionaryKey := match lc with
                                   | Some (d, _, _) => (d, size d)
                                   | None => (CVector [], 0)
                                   end in
        let '(cached_values, cache1) :=
          match cache with
          | Some c => if use_cache then let '(v, c') := cache_get c key in (v, Some c')
                      else (None, cache)
          | None => (None, cache)
          end in
        match cached_values, lc with
        | Some cv, Some (_, ix, _) =>
            Ok (setColumn b result
                  (CWithDictionary (function_result cv) (index_indexes (index_mapping cv) ix) true),
                cache1, [])
        | _, _ =>
            let bw := set_nth block_without_dicts result
                        {| column := column (getByPosition block_without_dicts result);
                           type := dictionary_type |} in
            let* (bw2, indexes) :=
              replaceColumnsWithDictionaryByNestedAndGetDictionaryIndexes
                bw args can_be_executed_on_default_arguments in
            let* (col, tr) := executeWithoutColumnsWithDictionary fuel f bw2 args result (rows bw2) in
            let keys := convertToFullColumnIfConst col in
            let* (res_dictionary, res_indexes) := uniqueInsertRangeFrom dictionary_type keys in
            match indexes with
            | Some ix =>
                match cache1, lc with
                | Some c, Some (d, _, _) =>
                    if use_cache then
                      let '(cv, c') := cache_getOrSet c key
                                         {| dictionary_holder := d;
                                            function_result := res_dictionary;
                                            index_mapping := res_indexes |} in
                      Ok (setColumn b result
                            (CWithDictionary (function_result cv)
                               (index_indexes (index_mapping cv) ix) true), Some c', tr)
                    else
                      Ok (setColumn b result
                            (CWithDictionary res_dictionary (index_indexes res_indexes ix) false),
                          cache1, tr)
                | _, _ =>
                    Ok (setColumn b result
                          (CWithDictionary res_dictionary (index_indexes res_indexes ix) false),
                        cache1, tr)
                end
            | None => Ok (setColumn b result (CWithDictionary res_dictionary res_indexes false), cache1, tr)
            end
        end
    | _ =>
        let bw := convertColumnsWithDictionaryToFull block_without_dicts args in
        let* (col, tr) := executeWithoutColumnsWithDictionary fuel f bw args result n in
        Ok (setColumn b result col, cache, tr)
    end
  else
    let* (col, tr) := executeWithoutColumnsWithDictionary fuel f b args result n in
    Ok (setColumn b result col, cache, tr).

Definition is_lowcardinality (t : DataType) : bool :=
  match t with TLowCardinality _ => true | _ => false end.

Definition slot_wf (s : ColumnWithTypeAndName) : bool :=
  match column s with Some c => wf_column c | None => true end.

Definition slot_isDict (s : ColumnWithTypeAndName) : bool :=
  match column s with Some (CWithDictionary _ _ _) => true | _ => false end.

(** The block the inner dispatcher sees when the result type is not
    dictionary-encoded. *)
Definition prepared_block (f : IFunction) (b : Block) (args : list nat) : Block :=
  if useDefaultImplementationForColumnsWithDictionary f
  then convertColumnsWithDictionaryToFull (block_without_dicts_of b args) args
  else b.

(** The same function with another list of always-constant arguments. *)
Definition with_always_constant (f : IFunction) (always : list nat) : IFunction :=
  {| useDefaultImplementationForConstants := useDefaultImplementationForConstants f;
     useDefaultImplementationForNulls := useDefaultImplementationForNulls f;
     useDefaultImplementationForColumnsWithDictionary :=
       useDefaultImplementationForColumnsWithDictionary f;
     canBeExecutedOnDefaultArguments := canBeExecutedOnDefaultArguments f;
     canBeExecutedOnLowCardinalityDictionary := canBeExecutedOnLowCardinalityDictionary f;
     getArgumentsThatAreAlwaysConstant := always;
     isVariadic := isVariadic f;
     getNumberOfArguments := getNumberOfArguments f;
     getReturnTypeImpl := getReturnTypeImpl f;
     executeImpl := executeImpl f |}.

(** A column whose tuples have at least one element column each (a
    [ColumnTuple] of no columns has no rows here). *)
Fixpoint no_empty_tuple (c : Column) : bool :=
  match c with
  | CVector _ => true
  | CConst d _ | CNullable d _ | CWithDictionary d _ _ | CArray d _ => no_empty_tuple d
  | CTuple cs => negb (is_empty cs) && forallb no_empty_tuple cs
  end.

(** [Nullable], possibly under [LowCardinality] layers: what
    [recursiveRemoveLowCardinality] can turn into a [Nullable] type. *)
Fixpoint nullable_under_lowcardinality (t : DataType) : bool :=
  match t with
  | TNullable _ => true
  | TLowCardinality d => nullable_under_lowcardinality d
  | _ => false
  end.

(** An argument slot holding a constant in the form [ColumnConst] keeps it:
    its data is one non-constant row (with well-formed dictionaries and no
    tuple of no columns).  While the nulls default is on, its type is not
    [Nullable] (nor [LowCardinality] over [Nullable] when the dictionary
    default strips dictionary types). *)
Definition one_row_constant_slot (f : IFunction) (s : ColumnWithTypeAndName) : bool :=
  match column s with
  | Some (CConst d _) =>
      wf_column d && no_empty_tuple d && negb (isColumnConst d) && (size d =? 1)
      && (negb (useDefaultImplementationForNulls f)
          || negb (if useDefaultImplementationForColumnsWithDictionary f
                   then nullable_under_lowcardinality (type s)
                   else type_isNullable (type s)))
  | _ => false
  end.

(** The same, for a slot of the block the inner dispatcher sees. *)
Definition one_row_constant (f : IFunction) (s : ColumnWithTypeAndName) : bool :=
  match column s with
  | Some (CConst d _) =>
      negb (isColumnConst d) && (size d =? 1)
      && (negb (useDefaultImplementationForNulls f) || negb (type_isNullable (type s)))
  | _ => false
  end.

(** The one-row block of the constants default: always-constant arguments
    as they are, the others unwrapped. *)
Definition constant_arguments_unwrapped (f : IFunction) (b : Block) (args : list nat)
  : list ColumnWithTypeAndName :=
  map (fun arg_num =>
         if member arg_num (getArgumentsThatAreAlwaysConstant f)
         then getByPosition b (nth arg_num args 0)
         else unwrap_constant (getByPosition b (nth arg_num args 0)))
      (seq 0 (length args)).

(** The accumulated null map after one more Nullable argument. *)
Definition acc_with (acc : option (list bool)) (m : list bool) : list bool :=
  match acc with None => m | Some r => or_null_map r m end.

(** A [Nullable] type whose nested type is not [Nullable] itself, as
    [DataTypeNullable] requires. *)
Definition nullable_wf (t : DataType) : bool :=
  match t with TNullable n => negb (type_isNullable n) | _ => true end.

(** ** Example functions and blocks *)

(** A function with every default on whose kernel writes [n] zeros. *)
Definition zero_function (always : list nat) : IFunction := {|
  useDefaultImplementationForConstants := true;
  useDefaultImplementationForNulls := true;
  useDefaultImplementationForColumnsWithDictionary := true;
  canBeExecutedOnDefaultArguments := true;
  canBeExecutedOnLowCardinalityDictionary := true;
  getArgumentsThatAreAlwaysConstant := always;
  isVariadic := true;
  getNumberOfArguments := 0;
  getReturnTypeImpl := fun _ => TBase GString;
  executeImpl := fun _ _ k => CVector (repeat 0%Z k) |}.

(** A function with every default on whose kernel writes [n] NULLs. *)
Definition null_output_function : IFunction := {|
  useDefaultImplementationForConstants := true;
  useDefaultImplementationForNulls := true;
  useDefaultImplementationForColumnsWithDictionary := true;
  canBeExecutedOnDefaultArguments := true;
  canBeExecutedOnLowCardinalityDictionary := true;
  getArgumentsThatAreAlwaysConstant := [];
  isVariadic := true;
  getNumberOfArguments := 0;
  getReturnTypeImpl := fun _ => TNullable (TBase GInt32);
  executeImpl := fun _ _ k => CNullable (CVector (repeat 0%Z k)) (repeat true k) |}.

Definition string_slot (c : option Column) : ColumnWithTypeAndName :=
  {| column := c; type := TBase GString |}.

Definition lc_string_slot (c : option Column) : ColumnWithTypeAndName :=
  {| column := c; type := TLowCardinality (TBase GString) |}.

Definition int_slot (c : option Column) : ColumnWithTypeAndName :=
  {| column := c; type := TBase GInt32 |}.

Definition nullable_int_slot (c : option Column) : ColumnWithTypeAndName :=
  {| column := c; type := TNullable (TBase GInt32) |}.

(** A shared dictionary-encoded column of two rows, both [7]. *)
Definition dict_column : Column := CWithDictionary (CVector [7%Z]) [0; 0] true.

(** A result cache holding the result [5] for the dictionary [[7]]. *)
Definition example_cache : LowCardinalityResultCache :=
  {| cache_size := 1;
     cache_entries := [((CVector [7%Z], 1),
                        {| dictionary_holder := CVector [7%Z];
                           function_result := CVector [5%Z];
                           index_mapping := [0] |})] |}.

(** A constant dictionary-encoded argument of three rows, and a
    dictionary-encoded result slot. *)
Definition const_dict_block : Block :=
  [lc_string_slot (Some (CConst (CWithDictionary (CVector [1%Z]) [0] false) 3));
   lc_string_slot None].

(** A function with every default on whose kernel writes the column of its
    first argument. *)
Definition first_argument_function : IFunction := {|
  useDefaultImplementationForConstants := true;
  useDefaultImplementationForNulls := true;
  useDefaultImplementationForColumnsWithDictionary := true;
  canBeExecutedOnDefaultArguments := true;
  canBeExecutedOnLowCardinalityDictionary := true;
  getArgumentsThatAreAlwaysConstant := [];
  isVariadic := true;
  getNumberOfArguments := 0;
  getReturnTypeImpl := fun ts => match ts with t :: _ => t | [] => TBase GNothing end;
  executeImpl := fun slots _ k =>
    match slots with
    | s :: _ => match column s with Some c => c | None => CVector (repeat 0%Z k) end
    | [] => CVector (repeat 0%Z k)
    end |}.

(** A constant [Nullable] argument, not NULL, and a [Nullable] result slot. *)
Definition nullable_const_block : Block :=
  [nullable_int_slot (Some (CConst (CNullable (CVector [1%Z]) [false]) 2));
   nullable_int_slot None].

(** Two constant arguments and a result slot. *)
Definition const_pair_block : Block :=
  [int_slot (Some (CConst (CVector [4%Z]) 2)); int_slot (Some (CConst (CVector [5%Z]) 2));
   int_slot None].

(** A constant dictionary-encoded argument of three rows and a [String]
    result slot. *)
Definition lc_const_block : Block :=
  [lc_string_slot (Some (CConst (CWithDictionary (CVector [1%Z]) [0] false) 3));
   string_slot None].

(** A dictionary argument, a plain argument, a dictionary-encoded result. *)
Definition dict_plain_block : Block :=
  [lc_string_slot (Some dict_column); int_slot (Some (CVector [1%Z; 2%Z]));
   lc_string_slot None].

(** A dictionary column in a slot of type [String], a plain argument, a
    dictionary-encoded result. *)
Definition mistyped_dict_block : Block :=
  [{| column := Some dict_column; type := TBase GString |};
   int_slot (Some (CVector [1%Z; 2%Z])); lc_string_slot None].

Definition two_dicts_block (result : ColumnWithTypeAndName) : Block :=
  [lc_string_slot (Some dict_column); lc_string_slot (Some dict_column); result].




(** A constant NULL argument and a result slot of type [Nullable(Nothing)]. *)
Definition null_block : Block :=
  [{| column := Some (CConst (CNullable (CVector [0%Z]) [true]) 2);
      type := TNullable (TBase GNothing) |};
   {| column := None; type := TNullable (TBase GNothing) |}].

Definition plain_block : Block :=
  [int_slot (Some (CVector [1%Z; 2%Z])); int_slot (Some (CVector [3%Z; 4%Z])); string_slot None].

Definition const_block : Block :=
  [int_slot (Some (CConst (CVector [4%Z]) 5)); string_slot None].

(** Two Nullable arguments of one row, both not NULL. *)
Definition nullable_pair_block (m0 m1 : list bool) : Block :=
  [nullable_int_slot (Some (CNullable (CVector (repeat 1%Z (length m0))) m0));
   nullable_int_slot (Some (CNullable (CVector (repeat 1%Z (length m1))) m1));
   nullable_int_slot None].

(** ** Return-type inference (lines 511-546 and 614-656) *)

Definition checkNumberOfArguments (f : IFunction) (number_of_arguments : nat) : Res unit :=
  if isVariadic f then Ok tt
  else if Nat.eqb number_of_arguments (getNumberOfArguments f) then Ok tt
  else Err NUMBER_OF_ARGUMENTS_DOESNT_MATCH.

Definition getReturnTypeWithoutDictionary (f : IFunction) (arguments : list ColumnWithTypeAndName)
  : Res DataType :=
  let* _ := checkNumberOfArguments f (length arguments) in
  let types := map type arguments in
  if negb (is_empty arguments) && useDefaultImplementationForNulls f then
    if existsb type_onlyNull types then Ok (makeNullable_type (TBase GNothing))
    else if existsb type_isNullable types then
      let nested_block := createBlockWithNestedColumns arguments (seq 0 (length arguments)) in
      Ok (makeNullable_type (getReturnTypeImpl f (map type nested_block)))
    else Ok (getReturnTypeImpl f types)
  else Ok (getReturnTypeImpl f types).

(** One argument of the first loop of [getReturnType]: the argument with
    its constant stripped and its top-level dictionary type removed, whether
    its type was [LowCardinality], and whether it is a full (non-constant)
    dictionary or ordinary column. *)
Definition return_type_arg (arg : ColumnWithTypeAndName)
  : ColumnWithTypeAndName * bool * nat * nat :=
  let is_const := slot_isConst arg in
  let col := if is_const then option_map recursiveRemoveLowCardinality (column arg) else column arg in
  match type arg with
  | TLowCardinality d => ({| column := col; type := d |}, true, if is_const then 0 else 1, 0)
  | t => ({| column := col; type := t |}, false, 0, if is_const then 0 else 1)
  end.

(** [IDataType::canBeInsideLowCardinality] of the ground types: numbers
    and strings, not [Nothing]; arrays, tuples, [Nullable] and dictionary
    types cannot be inside [LowCardinality]. *)
Definition canBeInsideLowCardinality (t : DataType) : bool :=
  match t with
  | TBase GNothing => false
  | TBase _ => true
  | _ => false
  end.

(** [std::make_shared<DataTypeLowCardinality>(dictionary_type)]: the
    constructor of [DataTypeLowCardinality] accepts a dictionary type when
    it, or the nested type of its [Nullable], can be inside
    [LowCardinality], and throws [ILLEGAL_TYPE_OF_ARGUMENT] otherwise. *)
Definition makeLowCardinality_type (dictionary_type : DataType) : Res DataType :=
  let inner_type := match dictionary_type with TNullable n => n | t => t end in
  if canBeInsideLowCardinality inner_type then Ok (TLowCardinality dictionary_type)
  else Err ILLEGAL_TYPE_OF_ARGUMENT.

Definition getReturnType (f : IFunction) (arguments : list ColumnWithTypeAndName) : Res DataType :=
  if useDefaultImplementationForColumnsWithDictionary f then
    let stepped := map return_type_arg arguments in
    let has_low_cardinality := existsb (fun x => snd (fst (fst x))) stepped in
    let num_full_low_cardinality_columns := list_sum (map (fun x => snd (fst x)) stepped) in
    let num_full_ordinary_columns := list_sum (map snd stepped) in
    let args_without_dictionary :=
      map (fun x => let a := fst (fst (fst x)) in
                    {| column := option_map recursiveRemoveLowCardinality (column a);
                       type := recursiveRemoveLowCardinality_type (type a) |}) stepped in
    if canBeExecutedOnLowCardinalityDictionary f && has_low_cardinality
       && (num_full_low_cardinality_columns <=? 1) && (num_full_ordinary_columns =? 0)
    then let* t := getReturnTypeWithoutDictionary f args_without_dictionary in
         makeLowCardinality_type t
    else getReturnTypeWithoutDictionary f args_without_dictionary
  else getReturnTypeWithoutDictionary f arguments.

(** ** Null presence of the arguments (lines 219-256) *)

Record NullPresence := { has_nullable : bool; has_null_constant : bool }.

Definition NullPresence_init : NullPresence :=
  {| has_nullable := false; has_null_constant := false |}.

(** One iteration of the loop of [getNullPresense]: a flag, once set, is
    not assigned again. *)
Definition null_presence_step (res : NullPresence) (t : DataType) : NullPresence :=
  {| has_nullable := if negb (has_nullable res) then type_isNullable t else has_nullable res;
     has_null_constant :=
       if negb (has_null_constant res) then type_onlyNull t else has_null_constant res |}.

(** [getNullPresense(const Block &, const ColumnNumbers &)]. *)
Definition getNullPresense (b : Block) (args : list nat) : NullPresence :=
  fold_left (fun res arg => null_presence_step res (type (getByPosition b arg))) args
            NullPresence_init.

(** [getNullPresense(const ColumnsWithTypeAndName &)]. *)
Definition getNullPresense_columns (args : list ColumnWithTypeAndName) : NullPresence :=
  fold_left (fun res elem => null_presence_step res (type elem)) args NullPresence_init.

(** ** Compilation helpers (lines 548-570) *)

(** [removeNullables]: at the first [Nullable] type of [types], every
    type of [types] with [removeNullable] applied; nothing if no type is
    [Nullable].  [rest] is the part of the outer loop still to visit. *)
Fixpoint removeNullables_from (types rest : list DataType) : option (list DataType) :=
  match rest with
  | [] => None
  | t :: r =>
      if negb (type_isNullable t) then removeNullables_from types r
      else Some (map removeNullable_type types)
  end.

Definition removeNullables (types : list DataType) : option (list DataType) :=
  removeNullables_from types types.

(** [IFunction::isCompilable], given the function's [isCompilableImpl]. *)
Definition isCompilable (f : IFunction) (isCompilableImpl : list DataType -> bool)
    (arguments : list DataType) : bool :=
  if useDefaultImplementationForNulls f then
    match removeNullables arguments with
    | Some denulled => isCompilableImpl denulled
    | None => isCompilableImpl arguments
    end
  else isCompilableImpl arguments.

(** The dictionary-encoded columns among the argument slots, in the order
    of [args]. *)
Definition dictionary_arguments (b : Block) (args : list nat) : list Column :=
  flat_map (fun a => match column (getByPosition b a) with
                     | Some (CWithDictionary d ix sh) => [CWithDictionary d ix sh]
                     | _ => []
                     end) args.

(** A function with every default off whose kernel writes [n] zeros. *)
Definition kernel_only_function : IFunction := {|
  useDefaultImplementationForConstants := false;
  useDefaultImplementationForNulls := false;
  useDefaultImplementationForColumnsWithDictionary := false;
  canBeExecutedOnDefaultArguments := true;
  canBeExecutedOnLowCardinalityDictionary := true;
  getArgumentsThatAreAlwaysConstant := [1];
  isVariadic := true;
  getNumberOfArguments := 0;
  getReturnTypeImpl := fun _ => TBase GString;
  executeImpl := fun _ _ k => CVector (repeat 0%Z k) |}.

(** A dictionary argument, a constant argument, a dictionary-encoded result. *)
Definition dict_const_block : Block :=
  [lc_string_slot (Some dict_column); int_slot (Some (CConst (CVector [3%Z]) 2));
   lc_string_slot None].

(** A function of exactly two arguments, every default on, whose kernel
    writes [n] zeros. *)
Definition binary_function : IFunction := {|
  useDefaultImplementationForConstants := true;
  useDefaultImplementationForNulls := true;
  useDefaultImplementationForColumnsWithDictionary := true;
  canBeExecutedOnDefaultArguments := true;
  canBeExecutedOnLowCardinalityDictionary := true;
  getArgumentsThatAreAlwaysConstant := [];
  isVariadic := false;
  getNumberOfArguments := 2;
  getReturnTypeImpl := fun _ => TBase GString;
  executeImpl := fun _ _ k => CVector (repeat 0%Z k) |}.

(* END OF DEFINITIONS *)

(** * Properties *)

(** ** Encoding strippers *)

Lemma strip_type_lc_free : forall t, lc_free t = true ->
  recursiveRemoveLowCardinality_type t = t.
Proof.
  induction t using DataType_ind'; simpl; intros Hlc; try reflexivity; try discriminate.
  - rewrite IHt; auto.
  - f_equal. revert Hlc. induction H as [|x l Hx Hl IH]; simpl in *; intros Hf; auto.
    apply andb_true_iff in Hf as [H1 H2]. rewrite Hx, IH; auto.
Qed.

Lemma strip_column_dict_free : forall c, dict_free c = true ->
  recursiveRemoveLowCardinality c = c.
Proof.
  induction c using Column_ind'; simpl; intros Hf; try reflexivity; try discriminate.
  - rewrite IHc; auto.
  - rewrite IHc; auto.
  - f_equal. induction H as [|x l Hx Hl IH]; simpl in *; auto.
    apply andb_true_iff in Hf as [H1 H2]. rewrite Hx, IH; auto.
Qed.

Lemma index_dict_free : forall c idx, dict_free c = true -> dict_free (index c idx) = true.
Proof.
  induction c using Column_ind'; simpl; intros idx Hf; auto; try discriminate.
  induction H as [|x l Hx Hl IH]; simpl in *; auto.
  apply andb_true_iff in Hf as [H1 H2]. rewrite Hx, IH; auto.
Qed.

(** C9: stripping dictionary encoding is idempotent, on types and on
    columns, through [Array], [Tuple] and [Const] containers, for every type
    [DataTypeLowCardinality] accepts and every column whose dictionaries
    hold plain values. *)
Theorem strip_dict_idempotent :
  (forall t, wf_type t = true ->
     recursiveRemoveLowCardinality_type (recursiveRemoveLowCardinality_type t)
     = recursiveRemoveLowCardinality_type t) /\
  (forall c, wf_column c = true ->
     recursiveRemoveLowCardinality (recursiveRemoveLowCardinality c)
     = recursiveRemoveLowCardinality c).
Proof.
  split.
  - induction t using DataType_ind'; simpl; intros Hw; try reflexivity.
    + rewrite IHt; auto.
    + f_equal. rewrite map_map. apply map_ext_in. intros a Ha.
      rewrite Forall_forall in H. apply H; auto.
      rewrite forallb_forall in Hw. auto.
    + apply strip_type_lc_free; auto.
  - induction c using Column_ind'; simpl; intros Hw; try reflexivity.
    + rewrite IHc; auto.
    + apply andb_true_iff in Hw as [Hw _].
      apply strip_column_dict_free. apply index_dict_free. auto.
    + rewrite IHc; auto.
    + f_equal. rewrite map_map. apply map_ext_in. intros a Ha.
      rewrite Forall_forall in H. apply H; auto.
      rewrite forallb_forall in Hw. auto.
Qed.

(** ** Blocks *)

Lemma getByPosition_set_nth : forall l i x j,
  getByPosition (set_nth l i x) j =
  if (i =? j) && (i <? length l) then x else getByPosition l j.
Proof.
  unfold getByPosition.
  induction l as [|y l IH]; intros i x j; simpl.
  - destruct i, j; simpl; rewrite ?andb_false_r; try reflexivity; destruct j; reflexivity.
  - destruct i as [|i], j as [|j]; simpl; auto.
Qed.

Lemma length_set_nth : forall {A} (l : list A) i x, length (set_nth l i x) = length l.
Proof. intros A l; induction l; destruct i; simpl; auto. Qed.

Lemma getByPosition_map : forall g b j,
  getByPosition (map g b) j = if j <? length b then g (getByPosition b j) else empty_slot.
Proof.
  unfold getByPosition. intros g b; induction b as [|y b IH]; intros j; simpl.
  - destruct j; reflexivity.
  - destruct j; simpl; auto.
Qed.

Lemma getByPosition_out : forall b j, length b <= j -> getByPosition b j = empty_slot.
Proof. intros. unfold getByPosition. apply nth_overflow. auto. Qed.

Lemma block_without_dicts_spec : forall b args j,
  type (getByPosition (block_without_dicts_of b args) j) = type (getByPosition b j) /\
  column (getByPosition (block_without_dicts_of b args) j) =
  if member j args then column (getByPosition b j) else None.
Proof.
  intros b args. unfold block_without_dicts_of.
  assert (Hgen : forall l acc done,
    length acc = length b ->
    (forall j, type (getByPosition acc j) = type (getByPosition b j) /\
               column (getByPosition acc j) =
               if member j done then column (getByPosition b j) else None) ->
    forall j,
      type (getByPosition (fold_left (fun bl a => set_nth bl a
              {| column := column (getByPosition b a); type := type (getByPosition bl a) |}) l acc) j)
      = type (getByPosition b j) /\
      column (getByPosition (fold_left (fun bl a => set_nth bl a
              {| column := column (getByPosition b a); type := type (getByPosition bl a) |}) l acc) j)
      = if member j (done ++ l) then column (getByPosition b j) else None).
  { induction l as [|a l IH]; intros acc done Hlen Hacc j; simpl.
    - rewrite app_nil_r. apply Hacc.
    - replace (done ++ a :: l) with ((done ++ [a]) ++ l) by (rewrite <- app_assoc; reflexivity).
      apply IH.
      + rewrite length_set_nth. auto.
      + intros j'. rewrite getByPosition_set_nth.
        unfold member. rewrite existsb_app. simpl. rewrite orb_false_r.
        destruct (Nat.eqb_spec a j'); subst; simpl.
        * destruct (Nat.ltb_spec j' (length acc)); simpl.
          -- rewrite Nat.eqb_refl, orb_true_r. split; auto. apply Hacc.
          -- rewrite Nat.eqb_refl, orb_true_r.
             rewrite !getByPosition_out by lia. simpl.
             destruct (Hacc j') as [_ Hc]. rewrite getByPosition_out in Hc by lia.
             split; auto.
        * destruct (Nat.eqb_spec j' a); [congruence|]. rewrite orb_false_r. apply Hacc. }
  intros j. apply (Hgen args _ []).
  - apply length_map.
  - intros j'. rewrite getByPosition_map. simpl.
    destruct (Nat.ltb_spec j' (length b)); simpl; auto.
    rewrite getByPosition_out by lia. auto.
Qed.

Lemma index_isColumnConst : forall c idx, isColumnConst (index c idx) = isColumnConst c.
Proof. destruct c; reflexivity. Qed.

Lemma dict_free_wf : forall c, dict_free c = true -> wf_column c = true.
Proof.
  induction c using Column_ind'; simpl; intros Hf; auto; try discriminate.
  induction H as [|x l Hx Hl IH]; simpl in *; auto.
  apply andb_true_iff in Hf as [H1 H2]. rewrite Hx, IH; auto.
Qed.

Lemma strip_wf : forall c, wf_column c = true ->
  wf_column (recursiveRemoveLowCardinality c) = true /\
  isColumnConst (recursiveRemoveLowCardinality c) = isColumnConst c.
Proof.
  induction c using Column_ind'; simpl; intros Hw; auto.
  - split; auto. apply IHc; auto.
  - apply andb_true_iff in Hw as [H1 H2]. unfold convertToFullColumn_dict.
    rewrite index_isColumnConst. split.
    + apply dict_free_wf, index_dict_free; auto.
    + apply negb_true_iff in H2. exact H2.
  - split; auto. apply IHc; auto.
  - split; auto. induction H as [|x l Hx Hl IH]; simpl in *; auto.
    apply andb_true_iff in Hw as [H1 H2]. rewrite (proj1 (Hx H1)), IH; auto.
Qed.

Lemma convert_preserves : forall (P : ColumnWithTypeAndName -> Prop),
  (forall s, P s -> P (strip_slot s)) ->
  forall args bl j, P (getByPosition bl j) ->
  P (getByPosition (convertColumnsWithDictionaryToFull bl args) j).
Proof.
  intros P HP args. unfold convertColumnsWithDictionaryToFull.
  induction args as [|a args IH]; intros bl j Hj; simpl; auto.
  apply IH. rewrite getByPosition_set_nth.
  destruct (Nat.eqb_spec a j); subst; simpl; auto.
  destruct (j <? length bl); auto.
Qed.

Lemma strip_slot_nonconst : forall s,
  slot_wf s = true /\ slot_isConst s = false ->
  slot_wf (strip_slot s) = true /\ slot_isConst (strip_slot s) = false.
Proof.
  intros [[c|] t] [Hw Hc]; unfold slot_wf, slot_isConst, strip_slot in *; simpl in *; auto.
  destruct (strip_wf c Hw) as [H1 H2]. rewrite H1, H2. auto.
Qed.

Lemma strip_slot_const : forall s, slot_isConst s = true -> slot_isConst (strip_slot s) = true.
Proof.
  intros [[c|] t] Hc; unfold slot_isConst, strip_slot in *; simpl in *; try discriminate.
  destruct c; simpl in *; try discriminate; auto.
Qed.

Lemma setColumn_result : forall b r c, r < length b ->
  column (getByPosition (setColumn b r c) r) = Some c.
Proof.
  intros b r c Hr. unfold setColumn. rewrite getByPosition_set_nth.
  rewrite Nat.eqb_refl. destruct (Nat.ltb_spec r (length b)); [reflexivity | lia].
Qed.

(** ** The inner entry: the always-constant check and the constants default *)

Lemma exec_always_constant_violation : forall k f b args result n i,
  In i (getArgumentsThatAreAlwaysConstant f) -> i < length args ->
  slot_isConst (getByPosition b (nth i args 0)) = false ->
  executeWithoutColumnsWithDictionary (S k) f b args result n = Err ILLEGAL_COLUMN.
Proof.
  intros k f b args result n i Hin Hlt Hc. simpl.
  unfold defaultImplementationForConstantArguments.
  replace (existsb _ _) with true; [reflexivity|].
  symmetry. apply existsb_exists. exists i. split; auto.
  rewrite Hc. apply Nat.ltb_lt in Hlt. rewrite Hlt. reflexivity.
Qed.

Lemma exec_all_always_constant : forall k f b args result n,
  useDefaultImplementationForConstants f = true -> args <> [] ->
  (forall a, In a args -> slot_isConst (getByPosition b a) = true) ->
  (forall i, i < length args -> In i (getArgumentsThatAreAlwaysConstant f)) ->
  executeWithoutColumnsWithDictionary (S k) f b args result n = Err NUMBER_OF_ARGUMENTS_DOESNT_MATCH.
Proof.
  intros k f b args result n Hc Hne Hall Halw. simpl.
  unfold defaultImplementationForConstantArguments.
  replace (existsb _ (getArgumentsThatAreAlwaysConstant f)) with false.
  2:{ symmetry. apply not_true_iff_false. intros Hex.
      apply existsb_exists in Hex as [i [_ Hi]].
      apply andb_true_iff in Hi as [Hi1 Hi2]. apply Nat.ltb_lt in Hi1.
      rewrite Hall in Hi2; [discriminate|]. apply nth_In. auto. }
  replace (allArgumentsAreConstants b args) with true.
  2:{ symmetry. apply forallb_forall. auto. }
  rewrite Hc. destruct args as [|a0 rest]; [congruence|]. simpl.
  replace (existsb _ (seq 1 (length rest))) with false.
  2:{ symmetry. apply not_true_iff_false. intros Hex.
      apply existsb_exists in Hex as [i [Hi Hm]]. apply in_seq in Hi.
      assert (Hin : In i (getArgumentsThatAreAlwaysConstant f)) by (apply Halw; simpl; lia).
      unfold member in Hm. rewrite negb_true_iff in Hm.
      assert (existsb (Nat.eqb i) (getArgumentsThatAreAlwaysConstant f) = true)
        by (apply existsb_exists; exists i; split; auto; apply Nat.eqb_refl).
      congruence. }
  replace (negb (member 0 (getArgumentsThatAreAlwaysConstant f))) with false.
  - reflexivity.
  - symmetry. apply negb_false_iff. apply existsb_exists. exists 0. split.
    + apply Halw. simpl. lia.
    + reflexivity.
Qed.

(** ** The outer entry *)

Lemma execute_not_lowcardinality : forall f cache b args result n,
  is_lowcardinality (type (getByPosition b result)) = false ->
  execute f cache b args result n =
  (let* (col, tr) := executeWithoutColumnsWithDictionary (dispatch_fuel b args) f
                        (prepared_block f b args) args result n in
   Ok (setColumn b result col, cache, tr)).
Proof.
  intros f cache b args result n Hlc. unfold execute, prepared_block. cbv zeta.
  destruct (useDefaultImplementationForColumnsWithDictionary f); [|reflexivity].
  destruct (type (getByPosition b result)); try reflexivity; discriminate.
Qed.

Lemma block_without_dicts_arg : forall b args a, In a args ->
  getByPosition (block_without_dicts_of b args) a = getByPosition b a.
Proof.
  intros b args a Hin. destruct (block_without_dicts_spec b args a) as [Ht Hc].
  replace (member a args) with true in Hc.
  - destruct (getByPosition (block_without_dicts_of b args) a), (getByPosition b a).
    simpl in *. subst. reflexivity.
  - symmetry. apply existsb_exists. exists a. split; auto. apply Nat.eqb_refl.
Qed.

Lemma prepared_block_preserves : forall (P : ColumnWithTypeAndName -> Prop) f b args a,
  (forall s, P s -> P (strip_slot s)) -> In a args ->
  P (getByPosition b a) -> P (getByPosition (prepared_block f b args) a).
Proof.
  intros P f b args a HP Hin Ha. unfold prepared_block.
  destruct (useDefaultImplementationForColumnsWithDictionary f); auto.
  apply convert_preserves; auto. rewrite block_without_dicts_arg; auto.
Qed.

Lemma findLowCardinalityArgument_found : forall b args c,
  (exists a, In a args /\ slot_isDict (getByPosition b a) = true) ->
  findLowCardinalityArgument b args (Some c) = Err LOGICAL_ERROR.
Proof.
  intros b args. induction args as [|a0 r IH]; intros c [a [Hin Hd]]; [destruct Hin|].
  simpl. destruct Hin as [->|Hin].
  - unfold slot_isDict in Hd.
    destruct (column (getByPosition b a)) as [[]|]; try discriminate. reflexivity.
  - destruct (column (getByPosition b a0)) as [[]|]; try reflexivity; apply IH; eauto.
Qed.

Lemma findLowCardinalityArgument_two : forall b args i j found,
  i < j < length args ->
  slot_isDict (getByPosition b (nth i args 0)) = true ->
  slot_isDict (getByPosition b (nth j args 0)) = true ->
  findLowCardinalityArgument b args found = Err LOGICAL_ERROR.
Proof.
  intros b args. induction args as [|a0 r IH]; intros i j found Hij Hi Hj; simpl in Hij; [lia|].
  destruct i as [|i].
  - simpl in Hi. simpl. unfold slot_isDict in Hi.
    destruct (column (getByPosition b a0)) as [[]|]; try discriminate.
    destruct found; [reflexivity|].
    apply findLowCardinalityArgument_found. destruct j as [|j]; [lia|].
    exists (nth j r 0). split; auto. apply nth_In. lia.
  - destruct j as [|j]; [lia|]. simpl in Hi, Hj. simpl.
    destruct (column (getByPosition b a0)) as [[]|];
      try (destruct found; [reflexivity|]); apply (IH i j); auto; lia.
Qed.

(** C8: when the result type is dictionary-encoded and the dictionary
    default is on, two dictionary-encoded argument columns (at two
    positions of the argument list) make [execute] fail with
    [LOGICAL_ERROR]. *)
Theorem multiple_dictionaries_error : forall f cache b args result n i j dt,
  useDefaultImplementationForColumnsWithDictionary f = true ->
  type (getByPosition b result) = TLowCardinality dt ->
  i < j < length args ->
  slot_isDict (getByPosition b (nth i args 0)) = true ->
  slot_isDict (getByPosition b (nth j args 0)) = true ->
  execute f cache b args result n = Err LOGICAL_ERROR.
Proof.
  intros f cache b args result n i j dt Hon Hty Hij Hi Hj.
  unfold execute. cbv zeta. rewrite Hon, Hty.
  rewrite (findLowCardinalityArgument_two b args i j None); auto.
Qed.

Lemma findLowCardinalityArgument_none : forall b args found,
  (forall a, In a args -> slot_isDict (getByPosition b a) = false) ->
  findLowCardinalityArgument b args found = Ok found.
Proof.
  intros b args. induction args as [|a0 r IH]; intros found Hd; simpl; auto.
  specialize (Hd a0 (or_introl eq_refl)) as Ha. unfold slot_isDict in Ha.
  destruct (column (getByPosition b a0)) as [[]|]; try discriminate;
    apply IH; intros; apply Hd; right; auto.
Qed.

Lemma const_not_dict : forall s, slot_isConst s = true -> slot_isDict s = false.
Proof.
  intros [[[]|] t]; unfold slot_isConst, slot_isDict; simpl; auto; discriminate.
Qed.

Lemma dictionary_indexes_const : forall b args ix nr,
  (forall a, In a args -> slot_isConst (getByPosition b a) = true) ->
  dictionary_indexes b args ix nr = Ok (ix, nr).
Proof.
  intros b args. induction args as [|a0 r IH]; intros ix nr Hc; simpl; auto.
  specialize (Hc a0 (or_introl eq_refl)) as Ha. unfold slot_isConst in Ha.
  destruct (column (getByPosition b a0)) as [[]|]; try discriminate;
    apply IH; intros; apply Hc; right; auto.
Qed.

Lemma set_nth_keeps_const : forall b a x j,
  slot_isConst x = true -> slot_isConst (getByPosition b j) = true ->
  slot_isConst (getByPosition (set_nth b a x) j) = true.
Proof.
  intros b a x j Hx Hj. rewrite getByPosition_set_nth.
  destruct ((a =? j) && (a <? length b)); auto.
Qed.

Lemma replace_loop_const : forall args b nr can ix,
  (forall a, In a args -> slot_isConst (getByPosition b a) = true) ->
  exists b2, replace_loop b args nr can ix = Ok (b2, ix) /\
             (forall j, slot_isConst (getByPosition b j) = true ->
                        slot_isConst (getByPosition b2 j) = true).
Proof.
  induction args as [|a0 r IH]; intros b nr can ix Hc; simpl.
  - exists b. split; auto.
  - assert (Ha := Hc a0 (or_introl eq_refl)). unfold slot_isConst in Ha.
    destruct (column (getByPosition b a0)) as [[]|] eqn:Ecol; try discriminate.
    set (x := {| column := Some (const_removeLowCardinality_cloneResized data nr);
                 type := type (getByPosition b a0) |}).
    destruct (IH (set_nth b a0 x) nr can ix) as [b2 [Hr Hb2]].
    + intros a Hin. apply set_nth_keeps_const; [reflexivity|]. apply Hc. right. auto.
    + exists b2. split; auto. intros j Hj. apply Hb2, set_nth_keeps_const; auto.
Qed.
Lemma set_type_isConst : forall bl r t j,
  slot_isConst (getByPosition (set_nth bl r {| column := column (getByPosition bl r); type := t |}) j)
  = slot_isConst (getByPosition bl j).
Proof.
  intros bl r t j. rewrite getByPosition_set_nth.
  destruct (Nat.eqb_spec r j); simpl; [subst|reflexivity].
  destruct (j <? length bl); reflexivity.
Qed.

(** C7: with the constants default on, a non-empty argument list whose
    argument columns are all constant and whose every index is listed as
    always constant (so that no argument would be unwrapped) makes [execute]
    fail with [NUMBER_OF_ARGUMENTS_DOESNT_MATCH], whatever the result type and
    the dictionary default. *)
Theorem all_always_constant_error : forall f cache b args result n,
  useDefaultImplementationForConstants f = true -> args <> [] ->
  (forall a, In a args -> slot_isConst (getByPosition b a) = true) ->
  (forall i, i < length args -> In i (getArgumentsThatAreAlwaysConstant f)) ->
  execute f cache b args result n = Err NUMBER_OF_ARGUMENTS_DOESNT_MATCH.
Proof.
  intros f cache b args result n Hon Hne Hc Halw.
  destruct (is_lowcardinality (type (getByPosition b result))
            && useDefaultImplementationForColumnsWithDictionary f) eqn:Ecase.
  - apply andb_true_iff in Ecase as [Hlc Hd].
    unfold execute. cbv zeta. rewrite Hd.
    destruct (type (getByPosition b result)) as [| | | |dt] eqn:Ety; try discriminate.
    rewrite findLowCardinalityArgument_none.
    2:{ intros a Ha. apply const_not_dict. apply Hc; auto. }
    cbn [bind].
    set (bw := set_nth (block_without_dicts_of b args) result _).
    assert (Hbw : forall a, In a args -> slot_isConst (getByPosition bw a) = true).
    { intros a Ha. unfold bw. rewrite set_type_isConst, block_without_dicts_arg; auto. }
    destruct (replace_loop_const args bw 0 (canBeExecutedOnDefaultArguments f) None Hbw)
      as [b2 [Hr Hb2]].
    assert (Hrep : replaceColumnsWithDictionaryByNestedAndGetDictionaryIndexes bw args
                     (canBeExecutedOnDefaultArguments f) = Ok (b2, None)).
    { unfold replaceColumnsWithDictionaryByNestedAndGetDictionaryIndexes.
      rewrite dictionary_indexes_const; auto. }
    destruct cache; cbv beta iota; rewrite Hrep; cbn [bind]; unfold dispatch_fuel;
      rewrite exec_all_always_constant; auto.
  - assert (Hprep : execute f cache b args result n =
      (let* (col, tr) := executeWithoutColumnsWithDictionary (dispatch_fuel b args) f
                            (prepared_block f b args) args result n in
       Ok (setColumn b result col, cache, tr))).
    { apply andb_false_iff in Ecase as [Hlc|Hoff].
      - apply execute_not_lowcardinality; auto.
      - unfold execute, prepared_block. rewrite Hoff. reflexivity. }
    rewrite Hprep. unfold dispatch_fuel. rewrite exec_all_always_constant; auto.
    intros a Ha. apply (prepared_block_preserves (fun s => slot_isConst s = true));
      auto using strip_slot_const.
Qed.
Lemma existsb_ext_in : forall {A} (p q : A -> bool) l,
  (forall x, In x l -> p x = q x) -> existsb p l = existsb q l.
Proof.
  intros A p q l H. induction l as [|x l IH]; simpl; auto.
  rewrite H by (left; reflexivity). rewrite IH; auto.
  intros; apply H; right; auto.
Qed.

Section AlwaysConstantRange.
Variable f : IFunction.
Variable L : nat.
Let A := getArgumentsThatAreAlwaysConstant f.
Let f' := with_always_constant f (filter (fun i => i <? L) A).

Lemma member_filter_range : forall i l, i < L ->
  member i (filter (fun j => j <? L) l) = member i l.
Proof.
  intros i l Hi. unfold member. induction l as [|x l IH]; simpl; auto.
  destruct (Nat.ltb_spec x L); simpl; rewrite IH; auto.
  destruct (Nat.eqb_spec i x); [lia|reflexivity].
Qed.

Lemma existsb_filter_range : forall (p : nat -> bool) l,
  (forall x, L <= x -> p x = false) ->
  existsb p (filter (fun j => j <? L) l) = existsb p l.
Proof.
  intros p l Hp. induction l as [|x l IH]; simpl; auto.
  destruct (Nat.ltb_spec x L); simpl; rewrite IH; auto.
  rewrite Hp; auto.
Qed.

Lemma exec_filter_range : forall fuel b args result n, length args = L ->
  executeWithoutColumnsWithDictionary fuel f' b args result n =
  executeWithoutColumnsWithDictionary fuel f b args result n.
Proof.
  induction fuel as [|k IH]; intros b args result n HL; [reflexivity|].
  cbn [executeWithoutColumnsWithDictionary].
  assert (Hc : defaultImplementationForConstantArguments
                 (executeWithoutColumnsWithDictionary k f') f' b args result n =
               defaultImplementationForConstantArguments
                 (executeWithoutColumnsWithDictionary k f) f b args result n).
  { unfold defaultImplementationForConstantArguments. cbv zeta.
    change (getArgumentsThatAreAlwaysConstant f') with (filter (fun i => i <? L) A).
    change (useDefaultImplementationForConstants f') with (useDefaultImplementationForConstants f).
    change (getArgumentsThatAreAlwaysConstant f) with A.
    rewrite existsb_filter_range.
    2:{ intros x Hx. destruct (Nat.ltb_spec x (length args)); [lia|reflexivity]. }
    destruct (existsb _ A); [reflexivity|].
    destruct (is_empty args || _ || _); [reflexivity|].
    assert (Hm : forall i, In i (seq 0 (length args)) ->
                   member i (filter (fun j => j <? L) A) = member i A).
    { intros i Hi. apply in_seq in Hi. apply member_filter_range. lia. }
    rewrite (existsb_ext_in (fun arg_num => negb (member arg_num (filter (fun j => j <? L) A)))
                            (fun arg_num => negb (member arg_num A)))
      by (intros; rewrite Hm; auto).
    destruct (negb (existsb _ _)); [reflexivity|].
    rewrite (map_ext_in
               (fun arg_num => if member arg_num (filter (fun j => j <? L) A)
                               then getByPosition b (nth arg_num args 0)
                               else unwrap_constant (getByPosition b (nth arg_num args 0)))
               (fun arg_num => if member arg_num A
                               then getByPosition b (nth arg_num args 0)
                               else unwrap_constant (getByPosition b (nth arg_num args 0))))
      by (intros; rewrite Hm; auto).
    rewrite IH; [reflexivity|]. rewrite length_seq. auto. }
  rewrite Hc. destruct (defaultImplementationForConstantArguments _ f b args result n)
    as [[x|]|e]; [reflexivity| |reflexivity].
  cbn [bind].
  assert (Hn : defaultImplementationForNulls (executeWithoutColumnsWithDictionary k f') f' b args result n =
               defaultImplementationForNulls (executeWithoutColumnsWithDictionary k f) f b args result n).
  { unfold defaultImplementationForNulls. cbv zeta.
    change (useDefaultImplementationForNulls f') with (useDefaultImplementationForNulls f).
    rewrite IH; auto. }
  rewrite Hn. reflexivity.
Qed.
End AlwaysConstantRange.
(** C10: always-constant indices at or beyond the number of arguments
    are ignored: removing them from the function's list changes nothing in
    the outcome of [execute] (the same result, error, cache and kernel
    calls), so they never cause [ILLEGAL_COLUMN] or any other error. *)
Theorem out_of_range_always_constant_ignored : forall f cache b args result n,
  execute (with_always_constant f
             (filter (fun i => i <? length args) (getArgumentsThatAreAlwaysConstant f)))
          cache b args result n
  = execute f cache b args result n.
Proof.
  intros f cache b args result n.
  assert (H : forall fuel b' r m,
    executeWithoutColumnsWithDictionary fuel
      (with_always_constant f (filter (fun i => i <? length args) (getArgumentsThatAreAlwaysConstant f)))
      b' args r m = executeWithoutColumnsWithDictionary fuel f b' args r m).
  { intros. apply exec_filter_range. reflexivity. }
  unfold execute. cbv zeta.
  change (useDefaultImplementationForColumnsWithDictionary (with_always_constant f ?l))
    with (useDefaultImplementationForColumnsWithDictionary f).
  change (canBeExecutedOnDefaultArguments (with_always_constant f ?l))
    with (canBeExecutedOnDefaultArguments f).
  destruct (useDefaultImplementationForColumnsWithDictionary f); [|rewrite H; reflexivity].
  destruct (type (getByPosition b result)) as [| | | |dt]; try (rewrite H; reflexivity).
  destruct (findLowCardinalityArgument b args None) as [lcc|e]; [|reflexivity]. cbn [bind].
  match goal with
  | |- context [replaceColumnsWithDictionaryByNestedAndGetDictionaryIndexes ?x ?y ?z] =>
      destruct (replaceColumnsWithDictionaryByNestedAndGetDictionaryIndexes x y z)
        as [[bw2 ix]|e]
  end; cbn [bind]; [|reflexivity].
  rewrite H. reflexivity.
Qed.
Lemma execute_prepared : forall f cache b args result n,
  (useDefaultImplementationForColumnsWithDictionary f = false \/
   is_lowcardinality (type (getByPosition b result)) = false) ->
  execute f cache b args result n =
  (let* (col, tr) := executeWithoutColumnsWithDictionary (dispatch_fuel b args) f
                        (prepared_block f b args) args result n in
   Ok (setColumn b result col, cache, tr)).
Proof.
  intros f cache b args result n [Hoff|Hlc].
  - unfold execute, prepared_block. rewrite Hoff. reflexivity.
  - apply execute_not_lowcardinality; auto.
Qed.

Lemma execute_prepared_ok : forall f cache b args result n b' cache' tr,
  (useDefaultImplementationForColumnsWithDictionary f = false \/
   is_lowcardinality (type (getByPosition b result)) = false) ->
  execute f cache b args result n = Ok (b', cache', tr) ->
  exists col, executeWithoutColumnsWithDictionary (dispatch_fuel b args) f
                (prepared_block f b args) args result n = Ok (col, tr) /\
              b' = setColumn b result col /\ cache' = cache.
Proof.
  intros f cache b args result n b' cache' tr Hcase Hex.
  rewrite execute_prepared in Hex by auto.
  destruct (executeWithoutColumnsWithDictionary _ f _ args result n) as [[col tr0]|e];
    cbn [bind] in Hex; inversion Hex; subst. eauto.
Qed.

Lemma temporary_block_slot : forall (g : nat -> ColumnWithTypeAndName) L x i, i < L ->
  getByPosition (map g (seq 0 L) ++ [x]) i = g i.
Proof.
  intros g L x i Hi. unfold getByPosition.
  rewrite app_nth1 by (rewrite length_map, length_seq; auto).
  rewrite nth_indep with (d' := g 0) by (rewrite length_map, length_seq; auto).
  rewrite map_nth, seq_nth; auto.
Qed.


Lemma has_type_index : forall c idx t, has_type c t = true -> has_type (index c idx) t = true.
Proof.
  induction c using Column_ind'; intros idx t Ht; destruct t as [g|t|t|ts nm|t];
    simpl in *; auto; try discriminate.
  revert ts Ht. induction H as [|x cs Hx Hcs IH]; intros [|y ys] Ht; simpl in *; auto.
  apply andb_true_iff in Ht as [H1 H2]. rewrite Hx, IH; auto.
Qed.

Lemma has_type_default : forall t, has_type (default_column t) t = true.
Proof.
  induction t using DataType_ind'; simpl; auto using has_type_index.
  induction H as [|x ts Hx Hts IH]; simpl; auto. rewrite Hx, IH. reflexivity.
Qed.

Lemma getByPosition_app_last : forall l x, getByPosition (l ++ [x]) (length l) = x.
Proof.
  intros l x. unfold getByPosition. rewrite app_nth2 by lia. rewrite Nat.sub_diag. reflexivity.
Qed.

Lemma isNullAt_nullable : forall c i t, isNullAt c i = true -> has_type c t = true ->
  type_isNullable t = true.
Proof.
  induction c; intros i t Hn Ht; simpl in *; try discriminate.
  - eauto.
  - destruct t; simpl in *; auto; discriminate.
Qed.

Lemma createColumnConstNull_ok : forall t n c,
  createColumnConstNull t n = Ok c ->
  isColumnConst c = true /\ onlyNull c = true /\ size c = n /\ has_type c t = true.
Proof.
  intros t n c H. destruct t; simpl in H; try discriminate.
  injection H as <-. repeat split. simpl. apply has_type_default.
Qed.



Lemma member_In : forall x l, member x l = true <-> In x l.
Proof.
  intros x l. unfold member. rewrite existsb_exists. split.
  - intros [y [Hy Hxy]]. apply Nat.eqb_eq in Hxy. subst. auto.
  - intros H. exists x. split; auto. apply Nat.eqb_refl.
Qed.

Lemma rows_app_first_nonconst : forall l x s c,
  In s l -> column s = Some c -> isColumnConst c = false ->
  (forall s' c', In s' l -> column s' = Some c' -> isColumnConst c' = false -> size c' = 1) ->
  rows (l ++ [x]) = 1.
Proof.
  intros l x s c Hin Hc Hnc Hall. unfold rows.
  set (p := fun s : ColumnWithTypeAndName =>
              match column s with Some c => negb (isColumnConst c) | None => false end).
  assert (Hfind : forall l', (exists s, In s l' /\ p s = true) ->
            exists s', find p (l' ++ [x]) = Some s' /\ In s' l' /\ p s' = true).
  { induction l' as [|y l' IH]; intros [s0 [Hs0 Hp]]; [destruct Hs0|].
    simpl. destruct (p y) eqn:Ey.
    - exists y. auto.
    - destruct Hs0 as [->|Hs0]; [congruence|].
      destruct IH as [s' [H1 [H2 H3]]]; eauto. }
  destruct (Hfind l) as [s' [Hf [Hs' Hp']]].
  { exists s. split; auto. unfold p. rewrite Hc, Hnc. reflexivity. }
  rewrite Hf.
  destruct s' as [[c'|] t']; unfold p in Hp'; simpl in Hp'; [|discriminate].
  apply negb_true_iff in Hp'. apply (Hall _ c' Hs'); auto.
Qed.

Lemma executeWithoutColumnsWithDictionary_S : forall k f b args result n,
  executeWithoutColumnsWithDictionary (S k) f b args result n =
  bind (defaultImplementationForConstantArguments
          (executeWithoutColumnsWithDictionary k f) f b args result n) (fun r1 =>
  match r1 with
  | Some x => Ok x
  | None =>
      bind (defaultImplementationForNulls
              (executeWithoutColumnsWithDictionary k f) f b args result n) (fun r2 =>
      match r2 with
      | Some x => Ok x
      | None => Ok (executeImpl_call f b args result n)
      end)
  end).
Proof. reflexivity. Qed.

Lemma existsb_false_intro : forall {A} (p : A -> bool) l,
  (forall x, In x l -> p x = false) -> existsb p l = false.
Proof.
  intros A p l H. apply not_true_iff_false. intros Hex.
  apply existsb_exists in Hex as [x [Hx Hp]]. rewrite H in Hp; auto. discriminate.
Qed.

Lemma existsb_true_intro : forall {A} (p : A -> bool) l x,
  In x l -> p x = true -> existsb p l = true.
Proof. intros A p l x Hx Hp. apply existsb_exists. eauto. Qed.

Lemma exec_constants_projection : forall f k B args result n i0,
  useDefaultImplementationForConstants f = true ->
  i0 < length args -> ~ In i0 (getArgumentsThatAreAlwaysConstant f) ->
  (forall a, In a args -> one_row_constant f (getByPosition B a) = true) ->
  executeWithoutColumnsWithDictionary (S (S k)) f B args result n =
  Ok (CConst (executeImpl f (constant_arguments_unwrapped f B args)
                (type (getByPosition B result)) 1) n, [1]).
Proof.
  intros f k B args result n i0 Hon Hi0 Hnot Hall.
  set (temp := constant_arguments_unwrapped f B args ++ [getByPosition B result]).
  assert (Hslot : forall i, i < length args -> exists d s0,
             column (getByPosition B (nth i args 0)) = Some (CConst d s0) /\
             isColumnConst d = false /\ size d = 1 /\
             (useDefaultImplementationForNulls f = false \/
              type_isNullable (type (getByPosition B (nth i args 0))) = false)).
  { intros i Hi. specialize (Hall (nth i args 0) (nth_In _ _ Hi)).
    unfold one_row_constant in Hall.
    destruct (column (getByPosition B (nth i args 0))) as [[]|]; try discriminate.
    exists data, s. rewrite !andb_true_iff in Hall.
    destruct Hall as [[H2 H3] H5]. apply negb_true_iff in H2.
    apply Nat.eqb_eq in H3. repeat split; auto.
    apply orb_true_iff in H5 as [H5|H5]; apply negb_true_iff in H5; auto. }
  assert (Hm0 : member i0 (getArgumentsThatAreAlwaysConstant f) = false).
  { apply not_true_iff_false. rewrite member_In. auto. }
  assert (Hin_args : forall s', In s' (constant_arguments_unwrapped f B args) ->
            exists i, i < length args /\
              s' = if member i (getArgumentsThatAreAlwaysConstant f)
                   then getByPosition B (nth i args 0)
                   else unwrap_constant (getByPosition B (nth i args 0))).
  { intros s' Hs'. unfold constant_arguments_unwrapped in Hs'.
    apply in_map_iff in Hs' as [i [<- Hi]]. apply in_seq in Hi. exists i. split; auto. lia. }
  assert (Htemp : forall i, i < length args -> getByPosition temp i =
             if member i (getArgumentsThatAreAlwaysConstant f) then getByPosition B (nth i args 0)
             else unwrap_constant (getByPosition B (nth i args 0))).
  { intros i Hi. unfold temp, constant_arguments_unwrapped.
    apply (temporary_block_slot
             (fun arg_num => if member arg_num (getArgumentsThatAreAlwaysConstant f)
                             then getByPosition B (nth arg_num args 0)
                             else unwrap_constant (getByPosition B (nth arg_num args 0)))).
    auto. }
  assert (Hlen : length (constant_arguments_unwrapped f B args) = length args).
  { unfold constant_arguments_unwrapped. rewrite length_map, length_seq. reflexivity. }
  assert (Hrows : rows temp = 1).
  { destruct (Hslot i0 Hi0) as [d0 [s0 [Hc0 [Hnc0 _]]]].
    apply (rows_app_first_nonconst _ _ (unwrap_constant (getByPosition B (nth i0 args 0))) d0).
    - unfold constant_arguments_unwrapped. apply in_map_iff. exists i0.
      rewrite Hm0. split; auto. apply in_seq. lia.
    - unfold unwrap_constant. simpl. rewrite Hc0. reflexivity.
    - auto.
    - intros s' c' Hs' Hc' Hnc'. apply Hin_args in Hs' as [i [Hi ->]].
      destruct (Hslot i Hi) as [d [s1 [Hc [_ [Hsz _]]]]].
      destruct (member i _).
      + rewrite Hc in Hc'. inversion Hc'; subst. discriminate.
      + unfold unwrap_constant in Hc'. simpl in Hc'. rewrite Hc in Hc'.
        inversion Hc'; subst. auto. }
  assert (Hne : is_empty args = false) by (destruct args; simpl in *; [lia|reflexivity]).
  assert (E2 : executeWithoutColumnsWithDictionary (S k) f temp (seq 0 (length args))
                 (length args) (rows temp) =
               Ok (executeImpl f (constant_arguments_unwrapped f B args)
                     (type (getByPosition B result)) 1, [1])).
  { rewrite Hrows. cbn [executeWithoutColumnsWithDictionary].
    unfold defaultImplementationForConstantArguments. cbv zeta.
    rewrite length_seq.
    rewrite (existsb_false_intro _ (getArgumentsThatAreAlwaysConstant f)).
    2:{ intros i Hi. destruct (Nat.ltb_spec i (length args)); [|reflexivity]. simpl.
        rewrite seq_nth, Nat.add_0_l, Htemp by auto. apply member_In in Hi. rewrite Hi.
        destruct (Hslot i) as [d [s1 [Hc _]]]; auto. unfold slot_isConst. rewrite Hc. reflexivity. }
    replace (allArgumentsAreConstants temp (seq 0 (length args))) with false.
    2:{ symmetry. unfold allArgumentsAreConstants. apply not_true_iff_false. intros Hf.
        rewrite forallb_forall in Hf. specialize (Hf i0 (proj2 (in_seq (length args) 0 i0) ltac:(lia))).
        rewrite Htemp, Hm0 in Hf by auto.
        destruct (Hslot i0) as [d [s1 [Hc [Hnc _]]]]; auto.
        unfold slot_isConst, unwrap_constant in Hf. simpl in Hf. rewrite Hc in Hf. congruence. }
    rewrite !orb_true_r. cbn [bind].
    unfold defaultImplementationForNulls. cbv zeta.
    replace (is_empty (seq 0 (length args))) with false
      by (destruct args; simpl in *; [lia|reflexivity]).
    assert (Hcall : executeImpl_call f temp (seq 0 (length args)) (length args) 1 =
                    (executeImpl f (constant_arguments_unwrapped f B args)
                       (type (getByPosition B result)) 1, [1])).
    { unfold executeImpl_call. f_equal. f_equal.
      - unfold constant_arguments_unwrapped. apply map_ext_in. intros i Hi.
        apply in_seq in Hi. apply Htemp. lia.
      - unfold temp. rewrite <- Hlen. rewrite getByPosition_app_last. reflexivity. }
    destruct (useDefaultImplementationForNulls f) eqn:Enulls; simpl orb; cbv iota;
      cbn [bind]; [|rewrite Hcall; reflexivity].
    assert (Hty : forall t, In t (map (fun a => type (getByPosition temp a)) (seq 0 (length args))) ->
                    type_isNullable t = false).
    { intros t Ht. apply in_map_iff in Ht as [i [<- Hi]]. apply in_seq in Hi.
      rewrite Htemp by lia. destruct (Hslot i) as [d [s1 [_ [_ [_ [Hn|Hn]]]]]]; [lia|congruence|].
      destruct (member i _); exact Hn. }
    rewrite (existsb_false_intro type_onlyNull).
    2:{ intros t Ht. specialize (Hty t Ht). destruct t as [| [] | | |]; auto; discriminate. }
    rewrite (existsb_false_intro type_isNullable) by auto.
    cbn [bind]. rewrite Hcall. reflexivity. }
  rewrite executeWithoutColumnsWithDictionary_S.
  unfold defaultImplementationForConstantArguments at 1. cbv zeta.
  rewrite (existsb_false_intro _ (getArgumentsThatAreAlwaysConstant f)).
  2:{ intros i Hi. destruct (Nat.ltb_spec i (length args)); [|reflexivity]. simpl.
      destruct (Hslot i) as [d [s1 [Hc _]]]; auto. unfold slot_isConst. rewrite Hc. reflexivity. }
  replace (allArgumentsAreConstants B args) with true.
  2:{ symmetry. unfold allArgumentsAreConstants. apply forallb_forall. intros a Ha.
      specialize (Hall a Ha). unfold one_row_constant in Hall. unfold slot_isConst.
      destruct (column (getByPosition B a)) as [[]|]; auto. }
  rewrite Hne, Hon. simpl orb. cbv iota.
  rewrite (existsb_true_intro _ (seq 0 (length args)) i0).
  2:{ apply in_seq. lia. }
  2:{ rewrite Hm0. reflexivity. }
  simpl negb. cbv iota.
  fold (constant_arguments_unwrapped f B args). fold temp.
  rewrite E2. reflexivity.
Qed.
Lemma convert_other : forall args bl j, ~ In j args ->
  getByPosition (convertColumnsWithDictionaryToFull bl args) j = getByPosition bl j.
Proof.
  induction args as [|a args IH]; intros bl j Hj; simpl; auto.
  unfold convertColumnsWithDictionaryToFull in *. simpl. rewrite IH by (intros H; apply Hj; right; auto).
  rewrite getByPosition_set_nth. destruct (Nat.eqb_spec a j); [subst; exfalso; apply Hj; left; auto|].
  reflexivity.
Qed.

Lemma prepared_block_result_type : forall f b args result, ~ In result args ->
  type (getByPosition (prepared_block f b args) result) = type (getByPosition b result).
Proof.
  intros f b args result Hr. unfold prepared_block.
  destruct (useDefaultImplementationForColumnsWithDictionary f); auto.
  rewrite convert_other by auto. apply block_without_dicts_spec.
Qed.

Lemma length_cumulative : forall l acc, length (cumulative acc l) = length l.
Proof. induction l as [|x l IH]; intros acc; simpl; auto. Qed.

Lemma size_index : forall c idx, no_empty_tuple c = true -> size (index c idx) = length idx.
Proof.
  induction c using Column_ind'; intros idx Hn; simpl in *.
  - apply length_map.
  - reflexivity.
  - apply IHc. auto.
  - apply length_map.
  - rewrite length_cumulative, !length_map. reflexivity.
  - destruct cs as [|c0 cs]; [discriminate|]. simpl in *.
    inversion H; subst. apply andb_true_iff in Hn as [Hn _]. auto.
Qed.

Lemma no_empty_tuple_index : forall c idx, no_empty_tuple c = true ->
  no_empty_tuple (index c idx) = true.
Proof.
  induction c using Column_ind'; intros idx Hn; simpl in *; auto.
  apply andb_true_iff in Hn as [Hne Hf]. apply andb_true_iff. split.
  - destruct cs; [discriminate|reflexivity].
  - rewrite forallb_forall in *. intros x Hx. apply in_map_iff in Hx as [y [<- Hy]].
    rewrite Forall_forall in H. apply H; auto.
Qed.

(** Stripping the dictionaries of a well-formed column keeps its number of
    rows. *)
Lemma strip_one_row : forall c, wf_column c = true -> no_empty_tuple c = true ->
  no_empty_tuple (recursiveRemoveLowCardinality c) = true /\
  size (recursiveRemoveLowCardinality c) = size c.
Proof.
  induction c using Column_ind'; simpl; intros Hw Hn; auto.
  - split; [apply IHc; auto | reflexivity].
  - unfold convertToFullColumn_dict.
    split; [apply no_empty_tuple_index | apply size_index]; auto.
  - split; [apply IHc; auto | reflexivity].
  - destruct cs as [|c0 cs]; [discriminate|]. simpl in *.
    inversion H as [|x l Hc0 Hcs]; subst.
    apply andb_true_iff in Hw as [Hw0 Hws]. apply andb_true_iff in Hn as [Hn0 Hns].
    destruct (Hc0 Hw0 Hn0) as [H1 H2]. rewrite H1, H2. split; auto.
    simpl. rewrite forallb_forall in *. intros x Hx. apply in_map_iff in Hx as [y [<- Hy]].
    rewrite Forall_forall in Hcs. apply Hcs; auto.
Qed.

Lemma nullable_under_lowcardinality_strip : forall t,
  nullable_under_lowcardinality t = false ->
  nullable_under_lowcardinality (recursiveRemoveLowCardinality_type t) = false.
Proof. intros t H. destruct t; simpl in *; auto; discriminate. Qed.

Lemma one_row_constant_slot_strip : forall f s,
  useDefaultImplementationForColumnsWithDictionary f = true ->
  one_row_constant_slot f s = true -> one_row_constant_slot f (strip_slot s) = true.
Proof.
  intros f [[c|] t] Hd H; unfold one_row_constant_slot, strip_slot in *; simpl in *;
    [|discriminate].
  rewrite Hd in *. destruct c as [| d k | | | |]; try discriminate. simpl.
  rewrite !andb_true_iff in H. destruct H as [[[[Hw Hn] Hc] Hs] Hnul].
  destruct (strip_wf d Hw) as [Hw' Hc']. destruct (strip_one_row d Hw Hn) as [Hn' Hs'].
  rewrite Hw', Hn', Hc', Hs'. rewrite Hc, Hs. simpl.
  destruct (useDefaultImplementationForNulls f); simpl in *; auto.
  destruct (nullable_under_lowcardinality t) eqn:E; [discriminate|].
  rewrite nullable_under_lowcardinality_strip; auto.
Qed.

Lemma one_row_constant_of_slot : forall f s,
  one_row_constant_slot f s = true -> one_row_constant f s = true.
Proof.
  intros f [[c|] t] Hs; unfold one_row_constant_slot, one_row_constant in *; simpl in *;
    [|discriminate].
  destruct c; try discriminate. rewrite !andb_true_iff in Hs. rewrite !andb_true_iff.
  destruct Hs as [[[[_ _] Hc] Hsz] Hnul]. split; [split; auto|].
  destruct (useDefaultImplementationForNulls f); simpl in *; auto.
  destruct (useDefaultImplementationForColumnsWithDictionary f); auto.
  destruct t; simpl in *; auto; discriminate.
Qed.

(** The inner dispatcher sees every argument of [one_row_constant_slot] as
    a one-row constant. *)
Lemma prepared_block_one_row : forall f b args a,
  In a args -> one_row_constant_slot f (getByPosition b a) = true ->
  one_row_constant f (getByPosition (prepared_block f b args) a) = true.
Proof.
  intros f b args a Hin H. apply one_row_constant_of_slot.
  destruct (useDefaultImplementationForColumnsWithDictionary f) eqn:Hd.
  - apply (prepared_block_preserves (fun s => one_row_constant_slot f s = true)); auto.
    intros s Hs. apply one_row_constant_slot_strip; auto.
  - unfold prepared_block. rewrite Hd. auto.
Qed.

(** C2: with the constants default on and the result type not
    dictionary-encoded (or the dictionary default off), when every argument
    column is a constant of one row, at least one argument index is not
    always-constant, and, while the nulls default is on, no argument type
    is [Nullable] (nor, under the dictionary default, [LowCardinality] over
    [Nullable]), [execute] writes a constant of [input_rows_count] rows
    whose value is the kernel applied to the one-row arguments, and the
    kernel runs exactly once, on one row.  The kernel receives the
    arguments as the inner dispatcher sees them ([prepared_block]: with the
    dictionary default on, dictionaries stripped), unwrapped except the
    always-constant ones, with the result type of that block. *)
Theorem constants_projection : forall f cache b args result n i0,
  (useDefaultImplementationForColumnsWithDictionary f = false \/
   is_lowcardinality (type (getByPosition b result)) = false) ->
  useDefaultImplementationForConstants f = true ->
  i0 < length args -> ~ In i0 (getArgumentsThatAreAlwaysConstant f) ->
  (forall a, In a args -> one_row_constant_slot f (getByPosition b a) = true) ->
  execute f cache b args result n =
  Ok (setColumn b result
        (CConst (executeImpl f (constant_arguments_unwrapped f (prepared_block f b args) args)
                   (type (getByPosition (prepared_block f b args) result)) 1) n), cache, [1]).
Proof.
  intros f cache b args result n i0 Hcase Hon Hi0 Hnot Hall.
  rewrite execute_prepared by auto. unfold dispatch_fuel.
  rewrite (exec_constants_projection f _ _ args result n i0); auto.
  intros a Ha. apply prepared_block_one_row; auto.
Qed.
Lemma nested_slot_empty : nested_slot empty_slot = empty_slot.
Proof. reflexivity. Qed.

Lemma nested_block_slot : forall b args j,
  getByPosition (createBlockWithNestedColumns b args) j =
  if member j args then nested_slot (getByPosition b j) else getByPosition b j.
Proof.
  intros b args j. unfold createBlockWithNestedColumns.
  assert (H : forall b i j, getByPosition (nested_columns_from i b args) j =
            if member (i + j) args then nested_slot (getByPosition b j) else getByPosition b j).
  { induction b0 as [|s r IH]; intros i j0; simpl.
    - unfold getByPosition. destruct j0; simpl; destruct (member _ args); reflexivity.
    - destruct j0 as [|j0].
      + rewrite Nat.add_0_r. reflexivity.
      + unfold getByPosition in *. simpl. rewrite IH. rewrite Nat.add_succ_r. reflexivity. }
  apply H.
Qed.

Lemma or_null_map_length : forall acc m, length (or_null_map acc m) = length acc.
Proof. intros. unfold or_null_map. rewrite length_map, length_seq. reflexivity. Qed.

Lemma nth_map_seq : forall {A} (g : nat -> A) L i d, i < L ->
  nth i (map g (seq 0 L)) d = g i.
Proof.
  intros A g L i d Hi.
  rewrite nth_indep with (d' := g 0) by (rewrite length_map, length_seq; auto).
  rewrite map_nth, seq_nth; auto.
Qed.

Lemma or_null_map_nth : forall acc m i, i < length acc ->
  nth i (or_null_map acc m) false = nth i acc false || nth i m false.
Proof.
  intros acc m i Hi. unfold or_null_map.
  apply (nth_map_seq (fun i => nth i acc false || nth i m false)). auto.
Qed.

Lemma wrap_loop_nullable_pair : forall b p0 p1 result n v0 v1 m0 m1 t0 t1 acc,
  getByPosition b p0 = {| column := Some (CNullable v0 m0); type := TNullable t0 |} ->
  getByPosition b p1 = {| column := Some (CNullable v1 m1); type := TNullable t1 |} ->
  wrap_loop b [p0; p1] result n acc = inr (Some (or_null_map (acc_with acc m0) m1)).
Proof.
  intros b p0 p1 result n v0 v1 m0 m1 t0 t1 acc H0 H1. simpl. rewrite H0, H1. simpl.
  destruct acc; reflexivity.
Qed.
Lemma constants_default_nonconst : forall rec f b args result n x,
  (exists a, In a args /\ slot_isConst (getByPosition b a) = false) ->
  defaultImplementationForConstantArguments rec f b args result n <> Ok (Some x).
Proof.
  intros rec f b args result n x [a [Ha Hc]].
  unfold defaultImplementationForConstantArguments. cbv zeta.
  destruct (existsb _ _); [discriminate|].
  replace (allArgumentsAreConstants b args) with false.
  - rewrite !orb_true_r. discriminate.
  - symmetry. apply not_true_iff_false. intros Hall. unfold allArgumentsAreConstants in Hall.
    rewrite forallb_forall in Hall. rewrite Hall in Hc; auto. discriminate.
Qed.

Lemma type_onlyNull_nullable : forall t, type_isNullable t = false -> type_onlyNull t = false.
Proof. intros [| | | |] H; auto; discriminate. Qed.

Lemma wrap_pair_commute : forall src b p0 p1 result n v0 v1 m0 m1 t0 t1,
  getByPosition b p0 = {| column := Some (CNullable v0 m0); type := TNullable t0 |} ->
  getByPosition b p1 = {| column := Some (CNullable v1 m1); type := TNullable t1 |} ->
  length m0 = length m1 ->
  wrapInNullable src b [p0; p1] result n = wrapInNullable src b [p1; p0] result n.
Proof.
  intros src b p0 p1 result n v0 v1 m0 m1 t0 t1 H0 H1 Hl. unfold wrapInNullable.
  destruct (onlyNull src); [reflexivity|].
  set (acc0 := match src with CNullable _ m => Some m | _ => None end).
  replace (match src with CNullable c m => (c, Some m) | _ => (src, None) end)
    with (match src with CNullable c _ => c | _ => src end, acc0) by (destruct src; reflexivity).
  rewrite (wrap_loop_nullable_pair b p0 p1 result n v0 v1 m0 m1 t0 t1) by auto.
  rewrite (wrap_loop_nullable_pair b p1 p0 result n v1 v0 m1 m0 t1 t0) by auto.
  replace (or_null_map (acc_with acc0 m1) m0) with (or_null_map (acc_with acc0 m0) m1); [reflexivity|].
  assert (Hlen : length (acc_with acc0 m0) = length (acc_with acc0 m1)).
  { destruct acc0; simpl; rewrite ?or_null_map_length; auto. }
  apply nth_ext with (d := false) (d' := false).
  - rewrite !or_null_map_length. auto.
  - intros i Hi. rewrite or_null_map_length in Hi.
    rewrite !or_null_map_nth by lia.
    destruct acc0 as [r|]; simpl in *.
    + rewrite or_null_map_length in Hi. rewrite !or_null_map_nth by lia.
      destruct (nth i r false), (nth i m0 false), (nth i m1 false); reflexivity.
    + destruct (nth i m0 false), (nth i m1 false); reflexivity.
Qed.
(** C4: for two non-constant Nullable arguments (not [Nullable(Nothing)])
    with the nulls default on and the result type not dictionary-encoded
    (or the dictionary default off), the null-map composition does not
    depend on the order of the arguments when their maps have one length;
    and whenever [execute] succeeds the kernel runs once on the nested
    columns, and the result is the kernel's output when that is a constant
    NULL, and otherwise a Nullable column whose null map is at every row the
    OR of the two arguments' maps and of the kernel output's own nulls. *)
Theorem null_map_or : forall f cache b result n p0 p1 t0 t1 v0 v1 m0 m1 b' cache' tr,
  (useDefaultImplementationForColumnsWithDictionary f = false \/
   is_lowcardinality (type (getByPosition b result)) = false) ->
  useDefaultImplementationForNulls f = true ->
  getByPosition b p0 = {| column := Some (CNullable v0 m0); type := TNullable t0 |} ->
  getByPosition b p1 = {| column := Some (CNullable v1 m1); type := TNullable t1 |} ->
  isColumnConst v0 = false -> isColumnConst v1 = false ->
  type_isNullable t0 = false -> type_isNullable t1 = false ->
  type_onlyNull (TNullable t0) = false -> type_onlyNull (TNullable t1) = false ->
  (length m0 = length m1 -> forall src,
     wrapInNullable src b [p0; p1] result n = wrapInNullable src b [p1; p0] result n) /\
  (execute f cache b [p0; p1] result n = Ok (b', cache', tr) -> result < length b ->
   let nb := createBlockWithNestedColumns (prepared_block f b [p0; p1]) [p0; p1] in
   let K := executeImpl f (map (getByPosition nb) [p0; p1]) (type (getByPosition nb result))
              (rows nb) in
   tr = [rows nb] /\
   exists c, column (getByPosition b' result) = Some c /\
     (onlyNull K = true -> c = K) /\
     (onlyNull K = false -> exists vals m, c = CNullable vals m /\
        (isColumnNullable K = false -> length m = length m0) /\
        forall i, i < length m ->
          nth i m false = nth i m0 false || nth i m1 false || isNullAt K i)).
Proof.
  intros f cache b result n p0 p1 t0 t1 v0 v1 m0 m1 b' cache' tr
    Hcase Hon H0 H1 Hc0 Hc1 Hnn0 Hnn1 Hon0 Hon1.
  split.
  { intros Hl src. eapply wrap_pair_commute; eauto. }
  intros Hex Hr nb K.
  destruct (execute_prepared_ok f cache b [p0; p1] result n b' cache' tr Hcase Hex)
    as [col [Hin [-> _]]].
  set (B := prepared_block f b [p0; p1]) in *.
  assert (HB : forall p v m t, In p [p0; p1] ->
            getByPosition b p = {| column := Some (CNullable v m); type := TNullable t |} ->
            getByPosition B p = getByPosition b p).
  { intros p v m t Hp Hbp. apply (prepared_block_preserves (fun s => s = getByPosition b p)); auto.
    intros s ->. rewrite Hbp. reflexivity. }
  assert (HB0 := HB p0 v0 m0 t0 (or_introl eq_refl) H0). rewrite H0 in HB0.
  assert (HB1 := HB p1 v1 m1 t1 (or_intror (or_introl eq_refl)) H1). rewrite H1 in HB1.
  unfold dispatch_fuel in Hin. rewrite executeWithoutColumnsWithDictionary_S in Hin.
  destruct (defaultImplementationForConstantArguments _ f B [p0; p1] result n)
    as [[x|]|e] eqn:Ec; cbn [bind] in Hin; try discriminate.
  { exfalso. eapply constants_default_nonconst; [|exact Ec].
    exists p0. split; [left; reflexivity|]. rewrite HB0. reflexivity. }
  unfold defaultImplementationForNulls in Hin. rewrite Hon in Hin.
  cbn [is_empty orb negb map] in Hin. rewrite HB0, HB1 in Hin.
  cbn [existsb type] in Hin. rewrite Hon0, Hon1 in Hin. cbn [type_isNullable orb] in Hin.
  change (createBlockWithNestedColumns B [p0; p1]) with nb in Hin.
  assert (Hnb : forall p v m t, In p [p0; p1] ->
            getByPosition B p = {| column := Some (CNullable v m); type := TNullable t |} ->
            getByPosition nb p = {| column := Some v; type := t |}).
  { intros p v m t Hp Hbp. unfold nb. rewrite nested_block_slot.
    apply member_In in Hp. rewrite Hp, Hbp. reflexivity. }
  assert (Hnb0 := Hnb p0 v0 m0 t0 (or_introl eq_refl) HB0).
  assert (Hnb1 := Hnb p1 v1 m1 t1 (or_intror (or_introl eq_refl)) HB1).
  destruct (executeWithoutColumnsWithDictionary _ f nb [p0; p1] result (rows nb))
    as [[K' tr']|e] eqn:Er; cbn [bind] in Hin; [|discriminate].
  assert (HK : K' = K /\ tr' = [rows nb]).
  { rewrite executeWithoutColumnsWithDictionary_S in Er.
    destruct (defaultImplementationForConstantArguments _ f nb [p0; p1] result (rows nb))
      as [[x|]|e] eqn:Ec2; cbn [bind] in Er; try discriminate.
    { exfalso. eapply constants_default_nonconst; [|exact Ec2].
      exists p0. split; [left; reflexivity|]. rewrite Hnb0. exact Hc0. }
    unfold defaultImplementationForNulls in Er. rewrite Hon in Er.
    cbn [is_empty orb negb map] in Er. rewrite Hnb0, Hnb1 in Er. cbn [existsb type] in Er.
    rewrite !type_onlyNull_nullable, Hnn0, Hnn1 in Er by auto. cbn [orb bind] in Er.
    unfold executeImpl_call in Er. inversion Er. auto. }
  destruct HK as [-> ->].
  destruct (wrapInNullable K B [p0; p1] result n) as [w|e] eqn:Ew; cbn [bind] in Hin; [|discriminate].
  inversion Hin; subst col tr. split; auto.
  exists w. rewrite setColumn_result by auto. split; auto.
  clearbody K. unfold wrapInNullable in Ew.
  destruct (onlyNull K) eqn:Eo.
  { inversion Ew. split; auto. discriminate. }
  split; [discriminate|]. intros _.
  destruct K as [vk|dk sk|ck mk|dk ik shk|dk ok|csk];
    rewrite (wrap_loop_nullable_pair B p0 p1 result n v0 v1 m0 m1 t0 t1) in Ew by auto;
    cbn [acc_with] in Ew; unfold ColumnNullable_create in Ew;
    match type of Ew with
    | (if ?c then _ else _) = _ => destruct c; inversion Ew; subst w
    end.
  all: eexists; eexists; split; [reflexivity|].
  all: split; [intros; rewrite ?or_null_map_length; try reflexivity; discriminate|].
  all: intros i Hi; rewrite ?or_null_map_length in Hi; rewrite or_null_map_nth by (rewrite ?or_null_map_length; auto).
  all: cbn [isNullAt]; rewrite ?orb_false_r; auto.
  - simpl in Eo. rewrite Eo, orb_false_r. reflexivity.
  - rewrite or_null_map_nth by auto.
    destruct (nth i mk false), (nth i m0 false), (nth i m1 false); reflexivity.
Qed.

(** ** Typing of the result column *)

Lemma strip_type_idem : forall t, wf_type t = true ->
  recursiveRemoveLowCardinality_type (recursiveRemoveLowCardinality_type t)
  = recursiveRemoveLowCardinality_type t.
Proof.
  induction t using DataType_ind'; simpl; intros Hw; try reflexivity.
  - rewrite IHt; auto.
  - f_equal. rewrite map_map. apply map_ext_in. intros a Ha.
    rewrite Forall_forall in H. apply H; auto.
    rewrite forallb_forall in Hw. auto.
  - apply strip_type_lc_free; auto.
Qed.

Ltac destr_if H :=
  match type of H with
  | context [if ?b then _ else _] =>
      let E := fresh "E" in destruct b eqn:E; cbv beta iota in H
  end.

Lemma has_type_full : forall c t, has_type c t = true ->
  has_type (convertToFullColumnIfConst c) t = true.
Proof. intros [] t Ht; simpl in *; auto using has_type_index. Qed.

Lemma makeNullable_nullable : forall t, exists u, makeNullable_type t = TNullable u.
Proof. intros []; unfold makeNullable_type; simpl; eauto. Qed.

Lemma createColumnConstNull_typed : forall t n c,
  createColumnConstNull t n = Ok c -> has_type c t = true.
Proof. intros t n c H. apply createColumnConstNull_ok in H. tauto. Qed.

Lemma has_type_nullable_shape : forall c u, has_type c (TNullable u) = true ->
  isColumnNullable c || isColumnConst c = true.
Proof. intros [] u Ht; simpl in *; auto; discriminate. Qed.

Lemma create_typed : forall x m u w, has_type x u = true ->
  ColumnNullable_create x m = Ok w -> has_type w (TNullable u) = true.
Proof.
  intros x m u w Ht Hc. unfold ColumnNullable_create in Hc.
  destruct (_ || _); inversion Hc; subst. simpl. apply has_type_full. auto.
Qed.

Lemma create_nullable_err : forall x m u w, has_type x (TNullable u) = true ->
  ColumnNullable_create x m = Ok w -> False.
Proof.
  intros x m u w Ht Hc. unfold ColumnNullable_create in Hc.
  rewrite (has_type_nullable_shape _ u) in Hc; [discriminate|].
  apply has_type_full. auto.
Qed.

Lemma wrap_loop_inl : forall B args result n acc c,
  wrap_loop B args result n acc = inl c ->
  c = createColumnConstNull (type (getByPosition B result)) n.
Proof.
  induction args as [|a r IH]; intros result n acc c H; simpl in H; [discriminate|].
  destruct (negb _); [eauto|].
  destruct (column (getByPosition B a)) as [x|]; [|eauto].
  destruct (onlyNull x); [inversion H; auto|].
  destruct (isColumnConst x); [eauto|].
  destruct x; eauto.
Qed.

Lemma wrap_typed : forall src T' B args result n w,
  has_type src T' = true ->
  type (getByPosition B result) = makeNullable_type T' ->
  wrapInNullable src B args result n = Ok w ->
  has_type w (makeNullable_type T') = true.
Proof.
  intros src T' B args result n w Hs Hr Hw. unfold wrapInNullable in Hw.
  destruct (onlyNull src) eqn:Eo.
  { inversion Hw; subst w. destruct src; simpl in Eo; try discriminate.
    assert (Hn : type_isNullable T' = true) by (eapply isNullAt_nullable; eauto).
    unfold makeNullable_type. rewrite Hn. auto. }
  assert (Hinl : forall acc c, wrap_loop B args result n acc = inl (Ok c) ->
                 has_type c (makeNullable_type T') = true).
  { intros acc c Hl. apply wrap_loop_inl in Hl. rewrite <- Hr.
    apply (createColumnConstNull_typed _ n). auto. }
  assert (Hplain : forall m, ColumnNullable_create src m = Ok w ->
                   has_type w (makeNullable_type T') = true).
  { intros m Hc. unfold makeNullable_type. destruct T' eqn:ET;
      try (eapply create_typed; eauto);
      exfalso; eapply create_nullable_err; eauto. }
  destruct src as [v|d s|c m|d ix sh|d o|cs];
    destruct (wrap_loop B args result n _) as [x|[m'|]] eqn:El;
    try (inversion Hw; subst; eauto; fail); eauto.
  destruct T'; simpl in Hs; try discriminate.
  unfold makeNullable_type. simpl. eapply create_typed; eauto.
Qed.

Lemma type_nested_slot : forall s,
  type (nested_slot s) = if type_isNullable (type s) then removeNullable_type (type s) else type s.
Proof. intros s. unfold nested_slot. destruct (type_isNullable (type s)); reflexivity. Qed.

Lemma nested_types_eq : forall args l1 l2 i, map type l1 = map type l2 ->
  map type (nested_columns_from i l1 args) = map type (nested_columns_from i l2 args).
Proof.
  induction l1 as [|x l1 IH]; intros [|y l2] i H; simpl in *; try discriminate; auto.
  inversion H as [[Hxy Hl]]. f_equal; [|apply IH; auto].
  destruct (member i args); auto. rewrite !type_nested_slot, Hxy. reflexivity.
Qed.

Lemma nested_from_all : forall args l i,
  (forall k, k < length l -> member (i + k) args = true) ->
  nested_columns_from i l args = map nested_slot l.
Proof.
  induction l as [|x l IH]; intros i H; simpl; auto.
  rewrite <- (Nat.add_0_r i) at 1. rewrite H by (simpl; lia).
  f_equal. apply IH. intros k Hk. replace (S i + k) with (i + S k) by lia. apply H. simpl. lia.
Qed.

Lemma nested_all : forall l,
  createBlockWithNestedColumns l (seq 0 (length l)) = map nested_slot l.
Proof.
  intros l. apply nested_from_all. intros k Hk. apply member_In. apply in_seq. lia.
Qed.

Lemma is_empty_map : forall {A B} (g : A -> B) l, is_empty (map g l) = is_empty l.
Proof. intros A B g []; reflexivity. Qed.

Lemma getRTWD_types : forall f l1 l2, map type l1 = map type l2 ->
  getReturnTypeWithoutDictionary f l1 = getReturnTypeWithoutDictionary f l2.
Proof.
  intros f l1 l2 H. unfold getReturnTypeWithoutDictionary.
  assert (Hl : length l1 = length l2).
  { rewrite <- (length_map type l1), <- (length_map type l2), H. reflexivity. }
  assert (He : is_empty l1 = is_empty l2).
  { rewrite <- (is_empty_map type l1), <- (is_empty_map type l2), H. reflexivity. }
  unfold createBlockWithNestedColumns.
  rewrite Hl, He, H, (nested_types_eq _ l1 l2 0 H). reflexivity.
Qed.

Lemma getRTWD_plain : forall f l,
  checkNumberOfArguments f (length l) = Ok tt ->
  (forall s, In s l -> type_isNullable (type s) = false) ->
  getReturnTypeWithoutDictionary f l = Ok (getReturnTypeImpl f (map type l)).
Proof.
  intros f l Hc Hn. unfold getReturnTypeWithoutDictionary. rewrite Hc. cbn [bind].
  destruct (_ && _); auto.
  rewrite !existsb_false_intro; auto;
    intros t Ht; apply in_map_iff in Ht as [s [<- Hs]]; auto using type_onlyNull_nullable.
Qed.

Lemma nullable_wf_plain : forall t, type_isNullable t = false -> nullable_wf t = true.
Proof. intros [] H; auto; discriminate. Qed.

Lemma nested_slot_plain : forall s, nullable_wf (type s) = true ->
  type_isNullable (type (nested_slot s)) = false.
Proof.
  intros s H. rewrite type_nested_slot. destruct (type s); simpl in *; auto.
  apply negb_true_iff. auto.
Qed.

Lemma map_seq_nth : forall {A B} (h : A -> B) l d,
  map (fun i => h (nth i l d)) (seq 0 (length l)) = map h l.
Proof.
  intros A B h l d. apply nth_ext with (d := h d) (d' := h d).
  - rewrite !length_map, length_seq. reflexivity.
  - intros i Hi. rewrite length_map, length_seq in Hi.
    rewrite (nth_map_seq (fun i => h (nth i l d))) by auto.
    rewrite map_nth. reflexivity.
Qed.

Section ResultTyping.
Variable f : IFunction.
Hypothesis kernel_typed : forall slots rt k,
  has_type (executeImpl f slots rt k) (getReturnTypeImpl f (map type slots)) = true.

Lemma exec_typed : forall fuel B args result n c tr T,
  (forall a, In a args -> nullable_wf (type (getByPosition B a)) = true) ->
  getReturnTypeWithoutDictionary f (map (getByPosition B) args) = Ok T ->
  (useDefaultImplementationForNulls f = true ->
   existsb type_isNullable (map (fun a => type (getByPosition B a)) args) = true ->
   type (getByPosition B result) = T) ->
  executeWithoutColumnsWithDictionary fuel f B args result n = Ok (c, tr) ->
  has_type c T = true.
Proof.
  induction fuel as [|k IH]; intros B args result n c tr T Hwf HT Hres Hex; [discriminate|].
  rewrite executeWithoutColumnsWithDictionary_S in Hex.
  destruct (defaultImplementationForConstantArguments _ f B args result n)
    as [[[c1 tr1]|]|e] eqn:Ec; cbn [bind] in Hex; try discriminate.
  - inversion Hex; subst c1 tr1. unfold defaultImplementationForConstantArguments in Ec.
    cbv zeta in Ec.
    destr_if Ec; [discriminate|]. destr_if Ec; [discriminate|]. destr_if Ec; [discriminate|].
    set (g := fun arg_num => if member arg_num (getArgumentsThatAreAlwaysConstant f)
                             then getByPosition B (nth arg_num args 0)
                             else unwrap_constant (getByPosition B (nth arg_num args 0))) in Ec.
    set (temp := map g (seq 0 (length args)) ++ [getByPosition B result]) in Ec.
    destruct (executeWithoutColumnsWithDictionary k f temp (seq 0 (length args)) (length args)
                (rows temp)) as [[c2 tr2]|e] eqn:Er;
      cbn [bind] in Ec; [|discriminate].
    inversion Ec; subst c tr. simpl.
    assert (Hg : forall i, i < length args ->
                 type (getByPosition temp i) = type (getByPosition B (nth i args 0))).
    { intros i Hi. unfold temp. rewrite temporary_block_slot by auto. unfold g.
      destruct (member _ _); reflexivity. }
    assert (Hlast : getByPosition temp (length args) = getByPosition B result).
    { pose proof (getByPosition_app_last (map g (seq 0 (length args))) (getByPosition B result))
        as Hl. rewrite length_map, length_seq in Hl. exact Hl. }
    apply (IH temp (seq 0 (length args)) (length args) (rows temp) c2 tr2 T); auto.
    + intros p Hp. apply in_seq in Hp. rewrite Hg by lia. apply Hwf. apply nth_In. lia.
    + rewrite <- HT. apply getRTWD_types. rewrite !map_map.
      rewrite (map_ext_in _ (fun i => type (getByPosition B (nth i args 0)))).
      * apply (map_seq_nth (fun a => type (getByPosition B a))).
      * intros p Hp. apply in_seq in Hp. apply Hg. lia.
    + intros Hon Hn. rewrite Hlast. apply Hres; auto.
      apply existsb_exists in Hn as [t [Ht Htn]].
      apply in_map_iff in Ht as [p [<- Hp]]. apply in_seq in Hp.
      apply (existsb_true_intro _ _ (type (getByPosition B (nth p args 0)))); [|rewrite <- Hg; auto; lia].
      apply (in_map (fun a => type (getByPosition B a))). apply nth_In. lia.
  - unfold getReturnTypeWithoutDictionary in HT.
    destruct (checkNumberOfArguments f _) as [[]|e] eqn:Ecn; cbn [bind] in HT; [|discriminate].
    rewrite is_empty_map, map_map in HT.
    destruct (defaultImplementationForNulls _ f B args result n)
      as [[[c1 tr1]|]|e] eqn:En; cbn [bind] in Hex; try discriminate.
    + inversion Hex; subst c1 tr1. unfold defaultImplementationForNulls in En.
      destruct (is_empty args || negb _) eqn:E1; [discriminate|].
      apply orb_false_iff in E1 as [Hne Hon]. apply negb_false_iff in Hon.
      rewrite Hne, Hon in HT. cbn [negb andb] in HT.
      destruct (existsb type_onlyNull _) eqn:Eo.
      * destruct (createColumnConstNull (type (getByPosition B result)) n) as [c0|e0] eqn:Ecnn;
          cbn [bind] in En; [|discriminate].
        inversion En; subst c tr. inversion HT; subst T.
        rewrite Hres in Ecnn; auto.
        2:{ apply existsb_exists in Eo as [t [Ht Hto]].
            apply (existsb_true_intro _ _ t); auto.
            destruct t as [|[]| | |]; try discriminate. reflexivity. }
        apply (createColumnConstNull_typed _ n). exact Ecnn.
      * destruct (existsb type_isNullable _) eqn:Enl; [|discriminate].
        set (nb := createBlockWithNestedColumns B args) in En.
        destruct (executeWithoutColumnsWithDictionary k f nb args result (rows nb))
          as [[c2 tr2]|e] eqn:Er; cbn [bind] in En; [|discriminate].
        destruct (wrapInNullable c2 B args result n) as [w|e] eqn:Ew; cbn [bind] in En;
          [|discriminate].
        inversion En; subst c tr. inversion HT; subst T.
        assert (Hnb : forall a, In a args -> getByPosition nb a = nested_slot (getByPosition B a)).
        { intros a Ha. unfold nb. rewrite nested_block_slot.
          apply member_In in Ha. rewrite Ha. reflexivity. }
        assert (Htypes : map type (createBlockWithNestedColumns (map (getByPosition B) args)
                                     (seq 0 (length (map (getByPosition B) args))))
                         = map type (map (getByPosition nb) args)).
        { rewrite nested_all, !map_map. apply map_ext_in. intros a Ha. rewrite Hnb; auto. }
        rewrite Htypes in *.
        eapply wrap_typed; [| |exact Ew].
        { apply (IH nb args result (rows nb) c2 tr2); auto.
          - intros a Ha. rewrite Hnb by auto. apply nullable_wf_plain.
            apply nested_slot_plain. auto.
          - apply getRTWD_plain.
            + rewrite length_map. rewrite length_map in Ecn. auto.
            + intros s Hs. apply in_map_iff in Hs as [a [<- Ha]].
              rewrite Hnb by auto. apply nested_slot_plain. auto.
          - intros _ Hn. exfalso.
            apply existsb_exists in Hn as [t [Ht Htn]].
            apply in_map_iff in Ht as [a [<- Ha]].
            rewrite Hnb, nested_slot_plain in Htn by auto. discriminate. }
        apply Hres; auto.
    + unfold executeImpl_call in Hex. inversion Hex; subst c tr.
      unfold defaultImplementationForNulls in En.
      assert (HT' : T = getReturnTypeImpl f (map (fun a => type (getByPosition B a)) args)).
      { destruct (is_empty args || negb (useDefaultImplementationForNulls f)) eqn:E1.
        - apply orb_true_iff in E1 as [E1|E1].
          + rewrite E1 in HT. cbn [negb andb] in HT. inversion HT. auto.
          + apply negb_true_iff in E1. rewrite E1, andb_false_r in HT. inversion HT. auto.
        - apply orb_false_iff in E1 as [Hne Hon]. apply negb_false_iff in Hon.
          rewrite Hne, Hon in HT. cbn [negb andb] in HT.
          destruct (existsb type_onlyNull _);
            [destruct (createColumnConstNull _ _); cbn [bind] in En; discriminate|].
          destruct (existsb type_isNullable _).
          + destruct (executeWithoutColumnsWithDictionary k f _ _ _ _) as [[]|];
              cbn [bind] in En; [|discriminate].
            destruct (wrapInNullable _ _ _ _ _); cbn [bind] in En; discriminate.
          + inversion HT. auto. }
      subst T. rewrite <- (map_map (getByPosition B) type). apply kernel_typed.
Qed.

End ResultTyping.

Lemma cache_get_in : forall c key v c', cache_get c key = (Some v, c') ->
  exists k, In (k, v) (cache_entries c).
Proof.
  intros c key v c'. unfold cache_get.
  destruct (find _ _) as [[k v']|] eqn:Ef; intros H; inversion H; subst.
  apply find_some in Ef as [Hin _]. eauto.
Qed.

Lemma cache_get_none : forall c key c', cache_get c key = (None, c') -> c' = c.
Proof.
  intros c key c'. unfold cache_get.
  destruct (find _ _) as [[k v']|]; intros H; inversion H; auto.
Qed.

Lemma cache_getOrSet_in : forall c key v0 v c', cache_getOrSet c key v0 = (v, c') ->
  v = v0 \/ exists k, In (k, v) (cache_entries c).
Proof.
  intros c key v0 v c'. unfold cache_getOrSet.
  destruct (find _ _) as [[k v']|] eqn:Ef; intros H; inversion H; subst; auto.
  apply find_some in Ef as [Hin _]. eauto.
Qed.

Lemma uniqueInsert_typed : forall t keys d ix,
  uniqueInsertRangeFrom t keys = Ok (d, ix) -> has_type d t = true.
Proof.
  intros t keys d ix H. unfold uniqueInsertRangeFrom in H.
  destruct (has_type keys t) eqn:E; [|discriminate].
  destruct (dedup_loop _ _ _ _) as [reps idx]. inversion H; subst.
  apply has_type_index. auto.
Qed.

Lemma execute_dictionary_typed : forall f cache b args result n b' cache' tr dt,
  useDefaultImplementationForColumnsWithDictionary f = true ->
  type (getByPosition b result) = TLowCardinality dt ->
  (forall c e, cache = Some c -> In e (cache_entries c) ->
     has_type (function_result (snd e)) dt = true) ->
  result < length b ->
  execute f cache b args result n = Ok (b', cache', tr) ->
  exists c, column (getByPosition b' result) = Some c /\ has_type c (TLowCardinality dt) = true.
Proof.
  intros f cache b args result n b' cache' tr dt Hd Hty Hc Hr Hex.
  unfold execute in Hex. cbv zeta in Hex. rewrite Hd, Hty in Hex. cbv beta iota in Hex.
  repeat (unfold bind in Hex; cbv beta iota in Hex; try discriminate;
          match type of Hex with
          | Ok _ = Ok _ => fail 1
          | context [match ?x with _ => _ end] =>
              lazymatch x with
              | context [match _ with _ => _ end] => fail
              | _ => destruct x eqn:?
              end
          end).
  all: repeat match goal with
              | H : cache_get _ _ = (None, _) |- _ => apply cache_get_none in H; subst
              end.
  all: inversion Hex; subst; eexists; (split; [apply setColumn_result; auto|]); simpl.
  all: first
    [ match goal with
      | H : uniqueInsertRangeFrom _ _ = Ok (?d, _) |- has_type ?d _ = true =>
          eapply uniqueInsert_typed; exact H
      end
    | match goal with
      | H : cache_get ?c _ = (Some ?v, _) |- has_type (function_result ?v) _ = true =>
          destruct (cache_get_in _ _ _ _ H) as [k Hk]; apply (Hc c (k, v)); auto
      end
    | match goal with
      | H : cache_getOrSet ?c _ _ = (?v, _) |- has_type (function_result ?v) _ = true =>
          destruct (cache_getOrSet_in _ _ _ _ _ H) as [->|[k Hk]];
          [simpl; eapply uniqueInsert_typed; eassumption | apply (Hc c (k, v)); auto]
      end ].
Qed.

Lemma convert_arg_type : forall args bl a, In a args ->
  wf_type (type (getByPosition bl a)) = true ->
  type (getByPosition (convertColumnsWithDictionaryToFull bl args) a)
  = recursiveRemoveLowCardinality_type (type (getByPosition bl a)).
Proof.
  induction args as [|a0 r IH]; intros bl a Hin Hw; [destruct Hin|].
  change (convertColumnsWithDictionaryToFull bl (a0 :: r))
    with (convertColumnsWithDictionaryToFull (set_nth bl a0 (strip_slot (getByPosition bl a0))) r).
  set (bl' := set_nth bl a0 (strip_slot (getByPosition bl a0))).
  destruct (Nat.eq_dec a0 a) as [<-|Hne].
  - apply (convert_preserves
             (fun s => type s = recursiveRemoveLowCardinality_type (type (getByPosition bl a0)))).
    + intros s Hs. simpl. rewrite Hs. apply strip_type_idem. auto.
    + unfold bl'. rewrite getByPosition_set_nth, Nat.eqb_refl. simpl.
      destruct (a0 <? length bl) eqn:E; [reflexivity|].
      apply Nat.ltb_ge in E. rewrite getByPosition_out by auto. reflexivity.
  - destruct Hin as [->|Hin]; [congruence|].
    assert (Hb : getByPosition bl' a = getByPosition bl a).
    { unfold bl'. rewrite getByPosition_set_nth.
      apply Nat.eqb_neq in Hne. rewrite Hne. reflexivity. }
    rewrite <- Hb. apply IH; auto. rewrite Hb. auto.
Qed.

Lemma prepared_block_type : forall f b args a,
  useDefaultImplementationForColumnsWithDictionary f = true -> In a args ->
  wf_type (type (getByPosition b a)) = true ->
  type (getByPosition (prepared_block f b args) a)
  = recursiveRemoveLowCardinality_type (type (getByPosition b a)).
Proof.
  intros f b args a Hd Ha Hw. unfold prepared_block. rewrite Hd.
  rewrite convert_arg_type; auto.
  - rewrite (proj1 (block_without_dicts_spec b args a)). reflexivity.
  - rewrite (proj1 (block_without_dicts_spec b args a)). auto.
Qed.

Lemma return_type_arg_type : forall s,
  type (fst (fst (fst (return_type_arg s))))
  = match type s with TLowCardinality d => d | t => t end.
Proof. intros [c t]. unfold return_type_arg. simpl. destruct t; reflexivity. Qed.

(** C1: whenever [execute] succeeds, the column it writes to the result
    slot has the type [getReturnType] computes from the argument slots,
    when the result slot is declared with that type.  The kernel is assumed
    to write a column of the type its [getReturnTypeImpl] gives for the
    types it receives, the cached dictionary results to have the dictionary
    type of the result, and the argument types to be well formed: accepted
    by [DataTypeLowCardinality], with no [Nullable] inside a [Nullable],
    also once dictionaries are stripped. *)
Theorem result_type_agreement : forall f cache b args result n b' cache' tr T,
  (forall slots rt k,
     has_type (executeImpl f slots rt k) (getReturnTypeImpl f (map type slots)) = true) ->
  (forall c e dt, cache = Some c -> In e (cache_entries c) -> T = TLowCardinality dt ->
     has_type (function_result (snd e)) dt = true) ->
  (forall a, In a args ->
     wf_type (type (getByPosition b a)) = true /\
     nullable_wf (type (getByPosition b a)) = true /\
     nullable_wf (recursiveRemoveLowCardinality_type (type (getByPosition b a))) = true) ->
  ~ In result args -> result < length b ->
  getReturnType f (map (getByPosition b) args) = Ok T ->
  type (getByPosition b result) = T ->
  execute f cache b args result n = Ok (b', cache', tr) ->
  exists c, column (getByPosition b' result) = Some c /\ has_type c T = true.
Proof.
  intros f cache b args result n b' cache' tr T Hk Hc Hargs Hnr Hr HR Hty Hex.
  destruct (useDefaultImplementationForColumnsWithDictionary f && is_lowcardinality T)
    eqn:Ecase.
  { apply andb_true_iff in Ecase as [Hd Hlc].
    destruct T as [| | | |dt]; try discriminate.
    apply (execute_dictionary_typed f cache b args result n b' cache' tr dt); auto.
    intros c e Hce He. apply (Hc c e dt); auto. }
  assert (Hcase : useDefaultImplementationForColumnsWithDictionary f = false \/
                  is_lowcardinality (type (getByPosition b result)) = false).
  { rewrite Hty. destruct (useDefaultImplementationForColumnsWithDictionary f); auto. }
  destruct (execute_prepared_ok f cache b args result n b' cache' tr Hcase Hex)
    as [col [Hin [-> _]]].
  exists col. split; [apply setColumn_result; auto|].
  apply (exec_typed f Hk (dispatch_fuel b args) (prepared_block f b args) args result n col tr T); auto.
  - intros a Ha. destruct (useDefaultImplementationForColumnsWithDictionary f) eqn:Hd.
    + rewrite prepared_block_type by (auto; apply Hargs; auto). apply Hargs. auto.
    + unfold prepared_block. rewrite Hd. apply Hargs. auto.
  - destruct (useDefaultImplementationForColumnsWithDictionary f) eqn:Hd.
    + unfold getReturnType in HR. rewrite Hd in HR. cbv beta iota zeta in HR.
      destr_if HR.
      { match type of HR with
        | context [getReturnTypeWithoutDictionary f ?l] =>
            destruct (getReturnTypeWithoutDictionary f l)
        end; cbn [bind] in HR; try discriminate.
        unfold makeLowCardinality_type in HR.
        destruct (canBeInsideLowCardinality _); [|discriminate].
        injection HR as <-. rewrite ?Hd in Ecase. discriminate. }
      rewrite <- HR. apply getRTWD_types. rewrite !map_map. apply map_ext_in.
      intros a Ha. cbn [type]. rewrite prepared_block_type by (auto; apply Hargs; auto).
      rewrite return_type_arg_type. destruct (Hargs a Ha) as [Hw _].
      destruct (type (getByPosition b a)); simpl in *; auto.
      symmetry. apply strip_type_lc_free. auto.
    + unfold prepared_block. unfold getReturnType in HR. rewrite Hd in *. auto.
  - intros _ _. rewrite prepared_block_result_type; auto.
Qed.

(** ** Counterexamples and witnesses *)

(** C5: with the dictionary default on, a dictionary-encoded result type and
    no dictionary-encoded argument column, a constant dictionary-encoded
    argument of three rows gives a result column of zero rows: [num_rows]
    of [replaceColumnsWithDictionaryByNestedAndGetDictionaryIndexes] stays
    [0], although the kernel writes as many rows as it is given. *)
Lemma dictionary_constant_result_length :
  exists b' cache' tr,
    execute (zero_function []) None const_dict_block [0] 1 3 = Ok (b', cache', tr) /\
    option_map size (column (getByPosition b' 1)) = Some 0.
Proof. do 3 eexists. split; reflexivity. Qed.

(** C6: with a dictionary-encoded result type, the always-constant
    argument [1] is a plain or dictionary column in each case below, and
    [execute] does not fail with [ILLEGAL_COLUMN]: a hit in the result cache
    returns the cached result; two dictionary arguments, a dictionary
    argument in the result slot, and a dictionary column in a slot whose type
    is not dictionary-encoded each fail with [LOGICAL_ERROR] first. *)
Lemma always_constant_cache_hit :
  In 1 (getArgumentsThatAreAlwaysConstant (zero_function [1])) /\
  (slot_isConst (getByPosition dict_plain_block 1) = false /\
   exists b' cache' tr,
     execute (zero_function [1]) (Some example_cache) dict_plain_block [0; 1] 2 2
     = Ok (b', cache', tr) /\
     column (getByPosition b' 2) = Some (CWithDictionary (CVector [5%Z]) [0; 0] true)) /\
  (slot_isConst (getByPosition (two_dicts_block (lc_string_slot None)) 1) = false /\
   execute (zero_function [1]) None (two_dicts_block (lc_string_slot None)) [0; 1] 2 2
   = Err LOGICAL_ERROR) /\
  (execute (zero_function [1]) None dict_plain_block [0; 1] 0 2 = Err LOGICAL_ERROR) /\
  (slot_isConst (getByPosition mistyped_dict_block 1) = false /\
   execute (zero_function [1]) None mistyped_dict_block [0; 1] 2 2 = Err LOGICAL_ERROR).
Proof.
  split; [simpl; auto|]. split; [split; [reflexivity|]; do 3 eexists; split; reflexivity|].
  repeat split; reflexivity.
Qed.

(** C8: with the dictionary default on and a result type that is not
    dictionary-encoded, two dictionary-encoded arguments are converted to
    full columns and [execute] succeeds. *)
Lemma two_dictionaries_full_result :
  exists b' cache' tr,
    execute (zero_function []) None (two_dicts_block (string_slot None)) [0; 1] 2 2
    = Ok (b', cache', tr) /\
    column (getByPosition b' 2) = Some (CVector [0%Z; 0%Z]).
Proof. do 3 eexists. split; reflexivity. Qed.


(** C2: with a dictionary-encoded result type, an all-constant argument
    list gives a dictionary-encoded result, not a constant.  A constant
    [Nullable] argument under the nulls default makes the value the
    kernel's result wrapped in [Nullable]; under the dictionary default the
    kernel receives the arguments with their dictionaries stripped; and an
    always-constant argument reaches the kernel still constant: in each case
    the value differs from the kernel applied to the one-row unwrapped
    arguments of the block. *)
Lemma constants_dictionary_result :
  (exists b' cache' tr c,
     execute (zero_function []) None const_dict_block [0] 1 3 = Ok (b', cache', tr) /\
     column (getByPosition b' 1) = Some c /\ isColumnConst c = false) /\
  (exists b' cache' tr c,
     execute (zero_function []) None nullable_const_block [0] 1 2 = Ok (b', cache', tr) /\
     column (getByPosition b' 1) = Some (CConst c 2) /\
     c <> executeImpl (zero_function [])
            (constant_arguments_unwrapped (zero_function []) nullable_const_block [0])
            (type (getByPosition nullable_const_block 1)) 1) /\
  (exists b' cache' tr c,
     execute first_argument_function None lc_const_block [0] 1 3 = Ok (b', cache', tr) /\
     column (getByPosition b' 1) = Some (CConst c 3) /\
     c <> executeImpl first_argument_function
            (constant_arguments_unwrapped first_argument_function lc_const_block [0])
            (type (getByPosition lc_const_block 1)) 1) /\
  (exists b' cache' tr c,
     execute (with_always_constant first_argument_function [0]) None const_pair_block
       [0; 1] 2 2 = Ok (b', cache', tr) /\
     column (getByPosition b' 2) = Some (CConst c 2) /\
     c <> executeImpl first_argument_function
            (map (fun a => unwrap_constant (getByPosition const_pair_block a)) [0; 1])
            (type (getByPosition const_pair_block 2)) 1).
Proof.
  split; [do 4 eexists; split; [reflexivity|]; split; reflexivity|].
  repeat split; do 4 eexists; (split; [reflexivity|]); (split; [reflexivity|]);
    vm_compute; discriminate.
Qed.

(** C4: a kernel that writes NULL makes the result's null map [[true]],
    although both arguments' maps are [[false]]. *)
Lemma null_map_kernel_nulls :
  exists b' cache' tr vals m,
    execute null_output_function None (nullable_pair_block [false] [false]) [0; 1] 2 1
    = Ok (b', cache', tr) /\
    column (getByPosition b' 2) = Some (CNullable vals m) /\
    m <> map (fun i => nth i [false] false || nth i [false] false) (seq 0 (length m)).
Proof.
  do 5 eexists. split; [reflexivity|]. split; [reflexivity|]. cbn. discriminate.
Qed.

Lemma multiple_dictionaries_error_witness :
  execute (zero_function []) None (two_dicts_block (lc_string_slot None)) [0; 1] 2 2
  = Err LOGICAL_ERROR.
Proof.
  apply (multiple_dictionaries_error (zero_function []) None
           (two_dicts_block (lc_string_slot None)) [0; 1] 2 2 0 1 (TBase GString)).
  - reflexivity.
  - reflexivity.
  - simpl. lia.
  - reflexivity.
  - reflexivity.
Defined.

Lemma all_always_constant_error_witness :
  execute (zero_function [0]) None const_block [0] 1 5 = Err NUMBER_OF_ARGUMENTS_DOESNT_MATCH.
Proof.
  apply (all_always_constant_error (zero_function [0]) None const_block [0] 1 5).
  - reflexivity.
  - discriminate.
  - intros a [<-|[]]. reflexivity.
  - intros i Hi. simpl in Hi. replace i with 0 by lia. simpl. auto.
Defined.


Lemma constants_projection_witness :
  execute (zero_function []) None lc_const_block [0] 1 3 =
  Ok (setColumn lc_const_block 1
        (CConst (executeImpl (zero_function [])
                   (constant_arguments_unwrapped (zero_function [])
                      (prepared_block (zero_function []) lc_const_block [0]) [0])
                   (type (getByPosition (prepared_block (zero_function []) lc_const_block [0]) 1))
                   1) 3), None, [1]).
Proof.
  apply (constants_projection (zero_function []) None lc_const_block [0] 1 3 0).
  - right. reflexivity.
  - reflexivity.
  - simpl. lia.
  - simpl. tauto.
  - intros a [<-|[]]. reflexivity.
Defined.

Lemma null_map_or_witness :
  (forall src,
     wrapInNullable src (nullable_pair_block [true] [false]) [0; 1] 2 1
     = wrapInNullable src (nullable_pair_block [true] [false]) [1; 0] 2 1) /\
  exists b' cache' tr,
    execute (zero_function []) None (nullable_pair_block [true] [false]) [0; 1] 2 1
    = Ok (b', cache', tr) /\
    exists c, column (getByPosition b' 2) = Some c /\
      exists vals m, c = CNullable vals m /\
        forall i, i < length m -> nth i m false = nth i [true] false || nth i [false] false.
Proof.
  pose proof (fun b' cache' tr =>
    null_map_or (zero_function []) None (nullable_pair_block [true] [false]) 2 1 0 1
      (TBase GInt32) (TBase GInt32) (CVector [1%Z]) (CVector [1%Z]) [true] [false]
      b' cache' tr (or_intror eq_refl) eq_refl eq_refl eq_refl eq_refl eq_refl
      eq_refl eq_refl eq_refl eq_refl) as Hthm.
  split; [apply (proj1 (Hthm [] None [])); reflexivity|].
  destruct (execute (zero_function []) None (nullable_pair_block [true] [false]) [0; 1] 2 1)
    as [[[b' cache'] tr]|e] eqn:E.
  - exists b', cache', tr. split; [reflexivity|].
    destruct (proj2 (Hthm b' cache' tr) eq_refl ltac:(simpl; lia)) as [_ [c [Hc [_ Hnn]]]].
    exists c. split; [exact Hc|].
    destruct (Hnn eq_refl) as [vals [m [Hcm [_ Hm]]]].
    exists vals, m. split; [exact Hcm|].
    intros i Hi. rewrite (Hm i Hi). cbn. rewrite orb_false_r. reflexivity.
  - vm_compute in E. discriminate.
Defined.

Lemma result_type_agreement_witness :
  exists b' cache' tr,
    execute (zero_function []) None plain_block [0;1] 2 2 = Ok (b', cache', tr) /\
    exists c, column (getByPosition b' 2) = Some c /\ has_type c (TBase GString) = true.
Proof.
  destruct (execute (zero_function []) None plain_block [0;1] 2 2)
    as [[[b' cache'] tr]|e] eqn:E.
  - exists b', cache', tr. split; [reflexivity|].
    apply (result_type_agreement (zero_function []) None plain_block [0;1] 2 2
             b' cache' tr (TBase GString)).
    + intros slots rt k. reflexivity.
    + intros c e' dt Hc. discriminate.
    + intros a Ha. simpl in Ha.
      destruct Ha as [<-|[<-|[]]]; repeat split; reflexivity.
    + simpl. lia.
    + simpl. lia.
    + reflexivity.
    + reflexivity.
    + exact E.
  - vm_compute in E. discriminate.
Defined.

(** ** Further properties of [IFunction.cpp] *)

Lemma null_presence_fold : forall {A} (g : A -> DataType) l res,
  fold_left (fun r x => null_presence_step r (g x)) l res =
  {| has_nullable := has_nullable res || existsb (fun x => type_isNullable (g x)) l;
     has_null_constant := has_null_constant res || existsb (fun x => type_onlyNull (g x)) l |}.
Proof.
  intros A g l; induction l as [|x l IH]; intros [hn hc]; simpl.
  - rewrite !orb_false_r. reflexivity.
  - rewrite IH. simpl. destruct hn, hc; reflexivity.
Qed.

Lemma existsb_as_map : forall {A} (p : A -> bool) l,
  existsb p l = existsb (fun x => x) (map p l).
Proof. intros A p l; induction l; simpl; auto. rewrite IHl. reflexivity. Qed.

Lemma existsb_seq_nth : forall {A} (h : A -> bool) l d,
  existsb (fun i => h (nth i l d)) (seq 0 (length l)) = existsb h l.
Proof.
  intros A h l d. rewrite existsb_as_map, map_seq_nth, <- existsb_as_map. reflexivity.
Qed.

Lemma removeNullables_from_spec : forall types rest,
  removeNullables_from types rest =
  if existsb type_isNullable rest then Some (map removeNullable_type types) else None.
Proof.
  intros types rest; induction rest as [|t r IH]; simpl; auto.
  destruct (type_isNullable t); simpl; auto.
Qed.

Lemma removeNullable_not_nullable : forall t, type_isNullable t = false ->
  removeNullable_type t = t.
Proof. intros [| | | |] H; auto; discriminate. Qed.

Lemma map_type_nested : forall l,
  map type (map nested_slot l) = map removeNullable_type (map type l).
Proof.
  intros l. rewrite !map_map. apply map_ext. intros s. rewrite type_nested_slot.
  destruct (type_isNullable (type s)) eqn:E; auto.
  rewrite removeNullable_not_nullable; auto.
Qed.

(** [getNullPresense] sets [has_nullable] exactly when the type of some
    argument is [Nullable], and [has_null_constant] exactly when the type of
    some argument is [Nullable(Nothing)]: a flag, once set, stays set. *)
Theorem getNullPresense_exists : forall b args,
  getNullPresense b args =
  {| has_nullable := existsb (fun a => type_isNullable (type (getByPosition b a))) args;
     has_null_constant := existsb (fun a => type_onlyNull (type (getByPosition b a))) args |}.
Proof.
  intros b args. unfold getNullPresense.
  rewrite (null_presence_fold (fun a => type (getByPosition b a))). reflexivity.
Qed.

(** The two overloads of [getNullPresense] agree: on a list of arguments
    it reports what the block overload reports for that list taken as a
    block with the positions [0 .. n-1]. *)
Theorem getNullPresense_overloads : forall l,
  getNullPresense_columns l = getNullPresense l (seq 0 (length l)).
Proof.
  intros l. unfold getNullPresense_columns, getNullPresense.
  rewrite (null_presence_fold type), (null_presence_fold (fun a => type (getByPosition l a))).
  simpl. unfold getByPosition.
  rewrite (existsb_seq_nth (fun x => type_isNullable (type x))).
  rewrite (existsb_seq_nth (fun x => type_onlyNull (type x))). reflexivity.
Qed.

(** [getNullPresense] never reports a constant NULL argument without
    reporting a [Nullable] argument. *)
Theorem getNullPresense_null_constant_nullable : forall b args,
  has_null_constant (getNullPresense b args) = true ->
  has_nullable (getNullPresense b args) = true.
Proof.
  intros b args. unfold getNullPresense.
  rewrite (null_presence_fold (fun a => type (getByPosition b a))). simpl.
  intros H. apply existsb_exists in H as [a [Ha Ho]].
  apply existsb_exists. exists a. split; auto.
  destruct (type_isNullable (type (getByPosition b a))) eqn:E; auto.
  rewrite type_onlyNull_nullable in Ho; auto.
Qed.

(** [removeNullables] returns nothing when no type is [Nullable], and
    otherwise every type of the list with its [Nullable] removed, the
    non-[Nullable] ones unchanged. *)
Theorem removeNullables_spec : forall types,
  removeNullables types =
  if existsb type_isNullable types then Some (map removeNullable_type types) else None.
Proof. intros types. apply removeNullables_from_spec. Qed.

(** With the nulls default on, [isCompilable] asks [isCompilableImpl]
    about the argument types with [Nullable] removed, so for well-formed
    types none of the types it passes is [Nullable]. *)
Theorem isCompilable_denulled : forall f impl types,
  useDefaultImplementationForNulls f = true ->
  (forall t, In t types -> nullable_wf t = true) ->
  isCompilable f impl types = impl (map removeNullable_type types) /\
  forall t, In t (map removeNullable_type types) -> type_isNullable t = false.
Proof.
  intros f impl types Hn Hwf. split.
  - unfold isCompilable. rewrite Hn, removeNullables_spec.
    destruct (existsb type_isNullable types) eqn:E; auto.
    f_equal. symmetry. rewrite <- map_id. apply map_ext_in. intros t Ht.
    apply removeNullable_not_nullable.
    destruct (type_isNullable t) eqn:Et; auto.
    rewrite (existsb_true_intro _ _ t Ht Et) in E. discriminate.
  - intros t Ht. apply in_map_iff in Ht as [u [<- Hu]].
    specialize (Hwf u Hu). destruct u; simpl in *; auto.
    apply negb_true_iff. auto.
Qed.

(** The result type the compiled code of [IFunction::compile] is built in,
    [makeNullable(getReturnTypeImpl(denulled))], is the type
    [getReturnTypeWithoutDictionary] gives for the same arguments, when
    some argument is [Nullable] and none is a constant NULL. *)
Theorem compile_return_type_agrees : forall f args denulled,
  useDefaultImplementationForNulls f = true ->
  checkNumberOfArguments f (length args) = Ok tt ->
  existsb type_onlyNull (map type args) = false ->
  removeNullables (map type args) = Some denulled ->
  getReturnTypeWithoutDictionary f args = Ok (makeNullable_type (getReturnTypeImpl f denulled)).
Proof.
  intros f args denulled Hn Hc Ho Hr.
  rewrite removeNullables_spec in Hr.
  destruct (existsb type_isNullable (map type args)) eqn:E; [|discriminate].
  injection Hr as <-.
  unfold getReturnTypeWithoutDictionary. rewrite Hc. cbn [bind].
  destruct args as [|a r]; [discriminate|].
  rewrite Hn, Ho, E. simpl negb. cbv iota beta.
  rewrite nested_all, map_type_nested. reflexivity.
Qed.

Lemma getRTWD_count_error : forall f l,
  isVariadic f = false -> length l <> getNumberOfArguments f ->
  getReturnTypeWithoutDictionary f l = Err NUMBER_OF_ARGUMENTS_DOESNT_MATCH.
Proof.
  intros f l Hv Hn. unfold getReturnTypeWithoutDictionary, checkNumberOfArguments.
  rewrite Hv. apply Nat.eqb_neq in Hn. rewrite Hn. reflexivity.
Qed.

(** A function that is not variadic, given a number of arguments other
    than [getNumberOfArguments], makes [getReturnTypeWithoutDictionary] and
    [getReturnType] fail with [NUMBER_OF_ARGUMENTS_DOESNT_MATCH], with the
    dictionary default on or off: [checkNumberOfArguments] runs before any
    return type is built, and the dictionary handling keeps the number of
    arguments. *)
Theorem getReturnType_count_error : forall f args,
  isVariadic f = false -> length args <> getNumberOfArguments f ->
  getReturnTypeWithoutDictionary f args = Err NUMBER_OF_ARGUMENTS_DOESNT_MATCH /\
  getReturnType f args = Err NUMBER_OF_ARGUMENTS_DOESNT_MATCH.
Proof.
  intros f args Hv Hn. split; [apply getRTWD_count_error; auto|].
  unfold getReturnType.
  destruct (useDefaultImplementationForColumnsWithDictionary f);
    [|apply getRTWD_count_error; auto].
  rewrite getRTWD_count_error by (auto; rewrite !length_map; auto).
  destruct (_ && _ && _ && _); reflexivity.
Qed.

(** When no argument type holds a [LowCardinality] type at any depth, the
    dictionary handling of [getReturnType] changes nothing: it returns what
    [getReturnTypeWithoutDictionary] returns for the arguments as given,
    constant or not. *)
Theorem getReturnType_without_lowcardinality : forall f args,
  (forall a, In a args -> lc_free (type a) = true) ->
  getReturnType f args = getReturnTypeWithoutDictionary f args.
Proof.
  intros f args Hlc. unfold getReturnType.
  destruct (useDefaultImplementationForColumnsWithDictionary f); auto.
  replace (existsb (fun x => snd (fst (fst x))) (map return_type_arg args)) with false.
  - rewrite !andb_false_r, andb_false_l. apply getRTWD_types.
    rewrite !map_map. apply map_ext_in. intros a Ha. simpl.
    rewrite return_type_arg_type. specialize (Hlc a Ha).
    destruct (type a); simpl in Hlc; try discriminate; apply strip_type_lc_free; auto.
  - symmetry. apply existsb_false_intro. intros x Hx.
    apply in_map_iff in Hx as [a [<- Ha]]. specialize (Hlc a Ha).
    destruct a as [c t]. unfold return_type_arg. simpl in *.
    destruct t; simpl in *; try discriminate; reflexivity.
Qed.

(** With the nulls default on and some argument of a [Nullable] type, the
    type [getReturnTypeWithoutDictionary] returns is [Nullable], and it is
    [Nullable(Nothing)] when some argument is a constant NULL. *)
Theorem getReturnTypeWithoutDictionary_nullable : forall f args t,
  useDefaultImplementationForNulls f = true ->
  existsb type_isNullable (map type args) = true ->
  getReturnTypeWithoutDictionary f args = Ok t ->
  type_isNullable t = true /\
  (existsb type_onlyNull (map type args) = true -> t = TNullable (TBase GNothing)).
Proof.
  intros f args t Hn Hx Ht. unfold getReturnTypeWithoutDictionary in Ht.
  destruct (checkNumberOfArguments f (length args)) as [[]|e]; cbn [bind] in Ht; [|discriminate].
  destruct args as [|a r]; [discriminate|]. rewrite Hn, Hx in Ht. simpl negb in Ht.
  cbv iota beta in Ht.
  destruct (existsb type_onlyNull (map type (a :: r))).
  - injection Ht as <-. split; reflexivity.
  - injection Ht as <-. split; [|discriminate].
    match goal with |- type_isNullable (makeNullable_type ?x) = true =>
      destruct (makeNullable_nullable x) as [u ->]; reflexivity end.
Qed.

(** *** The scans for the dictionary argument *)

Lemma findLCA_closed : forall b args found,
  findLowCardinalityArgument b args found =
  match found, dictionary_arguments b args with
  | _, [] => Ok found
  | None, [c] => Ok (Some c)
  | _, _ => Err LOGICAL_ERROR
  end.
Proof.
  intros b args; induction args as [|a r IH]; intros found; simpl.
  - destruct found; reflexivity.
  - unfold dictionary_arguments in *. simpl.
    destruct (column (getByPosition b a)) as [[]|] eqn:E; simpl; rewrite ?IH; auto.
    all: try (destruct found; [reflexivity|]; destruct (flat_map _ r); reflexivity).
Qed.

Lemma dictionary_indexes_closed : forall b args ix nr,
  dictionary_indexes b args ix nr =
  match ix, dictionary_arguments b args with
  | _, [] => Ok (ix, nr)
  | None, [CWithDictionary d ix' _] => Ok (Some ix', size d)
  | _, _ => Err LOGICAL_ERROR
  end.
Proof.
  intros b args; induction args as [|a r IH]; intros ix nr; simpl.
  - destruct ix; reflexivity.
  - unfold dictionary_arguments in *. simpl.
    destruct (column (getByPosition b a)) as [[]|] eqn:E; simpl; rewrite ?IH; auto.
    all: try (destruct ix; [reflexivity|]; destruct (flat_map _ r); reflexivity).
Qed.

(** [findLowCardinalityArgument] returns nothing when no argument column
    is dictionary-encoded, the dictionary-encoded column when there is one,
    and fails with [LOGICAL_ERROR] when there are two or more (an argument
    position listed twice counts twice). *)
Theorem findLowCardinalityArgument_spec : forall b args,
  findLowCardinalityArgument b args None =
  match dictionary_arguments b args with
  | [] => Ok None
  | [c] => Ok (Some c)
  | _ => Err LOGICAL_ERROR
  end.
Proof.
  intros b args. rewrite findLCA_closed.
  destruct (dictionary_arguments b args) as [|c [|c' r]]; reflexivity.
Qed.

(** The first loop of [replaceColumnsWithDictionaryByNestedAndGetDictionaryIndexes]
    takes the indexes and the dictionary size of the one dictionary-encoded
    argument, fails with [LOGICAL_ERROR] on two, and leaves no indexes and
    [num_rows = 0] when there is none. *)
Theorem dictionary_indexes_spec : forall b args,
  dictionary_indexes b args None 0 =
  match dictionary_arguments b args with
  | [] => Ok (None, 0)
  | [CWithDictionary d ix _] => Ok (Some ix, size d)
  | _ => Err LOGICAL_ERROR
  end.
Proof.
  intros b args. rewrite dictionary_indexes_closed.
  destruct (dictionary_arguments b args) as [|c [|c' r]]; reflexivity.
Qed.

(** *** The second loop of the dictionary replacement *)

Ltac split_match H :=
  repeat (cbv beta iota zeta in H; try discriminate;
          match type of H with
          | context [match ?x with _ => _ end] =>
              lazymatch x with
              | context [match _ with _ => _ end] => fail
              | _ => destruct x eqn:?
              end
          end).

Lemma replace_loop_frame : forall args b nr can ix b' ix',
  replace_loop b args nr can ix = Ok (b', ix') ->
  length b' = length b /\ forall j, ~ In j args -> getByPosition b' j = getByPosition b j.
Proof.
  induction args as [|a r IH]; intros b nr can ix b' ix' H; simpl in H.
  - injection H as <- <-. auto.
  - split_match H; apply IH in H as [Hl Hj]; rewrite ?length_set_nth in Hl;
      (split; [exact Hl|]); intros j Hnj; rewrite Hj by (simpl in Hnj; tauto);
      rewrite ?getByPosition_set_nth; auto;
      destruct (Nat.eqb_spec a j); simpl; auto; subst; simpl in Hnj; tauto.
Qed.

Lemma set_nth_same : forall (P : ColumnWithTypeAndName -> Prop) b a x,
  P x -> P empty_slot -> P (getByPosition (set_nth b a x) a).
Proof.
  intros P b a x Hx He. rewrite getByPosition_set_nth, Nat.eqb_refl. simpl.
  destruct (Nat.ltb_spec a (length b)); auto. rewrite getByPosition_out by lia. auto.
Qed.

Lemma set_nth_other : forall (P : ColumnWithTypeAndName -> Prop) b a x j,
  P x -> P (getByPosition b j) -> P (getByPosition (set_nth b a x) j).
Proof.
  intros P b a x j Hx Hj. rewrite getByPosition_set_nth.
  destruct ((a =? j) && (a <? length b)); auto.
Qed.

Lemma dict_free_not_dict : forall d, dict_free d = true ->
  slot_isDict {| column := Some d; type := TBase GNothing |} = false.
Proof. intros [] H; simpl in *; auto; discriminate. Qed.

Lemma replace_loop_nodict : forall args b nr can ix b' ix',
  (forall a, In a args -> slot_wf (getByPosition b a) = true) ->
  replace_loop b args nr can ix = Ok (b', ix') ->
  forall a, In a args ->
    slot_wf (getByPosition b' a) = true /\ slot_isDict (getByPosition b' a) = false.
Proof.
  induction args as [|a r IH]; intros b nr can ix b' ix' Hwf H; simpl in H; [intros _ []|].
  assert (Ha := Hwf a (or_introl eq_refl)).
  assert (Hwf' : forall a', In a' r -> slot_wf (getByPosition b a') = true)
    by (intros; apply Hwf; right; auto).
  set (P := fun s => slot_wf s = true /\ slot_isDict s = false).
  assert (Hfin : forall b1 ix1,
            replace_loop b1 r nr can ix1 = Ok (b', ix') ->
            (forall a', In a' r -> slot_wf (getByPosition b1 a') = true) ->
            P (getByPosition b1 a) ->
            forall a', In a' (a :: r) -> P (getByPosition b' a')).
  { intros b1 ix1 H1 Hw1 Hp a' [<-|Ha'].
    - destruct (in_dec Nat.eq_dec a r) as [Hin|Hin].
      + apply (IH b1 nr can ix1 b' ix'); auto.
      + destruct (replace_loop_frame _ _ _ _ _ _ _ H1) as [_ Hj]. rewrite Hj; auto.
    - apply (IH b1 nr can ix1 b' ix'); auto. }
  unfold slot_wf in Ha.
  destruct (column (getByPosition b a)) as [c|] eqn:Ec.
  2: { apply (Hfin b ix H); auto. unfold P, slot_wf, slot_isDict. rewrite Ec. auto. }
  destruct c as [v|d k|c m|d ix0 sh|d o|cs]; simpl in Ha; cbv beta iota zeta in H;
    try (apply (Hfin b ix H); auto; unfold P, slot_wf, slot_isDict; rewrite Ec; auto; fail).
  - apply (Hfin _ ix H).
    + intros a' Ha'. apply (set_nth_other (fun s => slot_wf s = true)); auto.
      unfold slot_wf; simpl. apply strip_wf. auto.
    + apply set_nth_same; unfold P; simpl; auto. split; auto. apply strip_wf. auto.
  - apply andb_true_iff in Ha as [Hdf Hnc].
    destruct (type (getByPosition b a)); try discriminate.
    destruct can.
    + apply (Hfin _ ix H).
      * intros a' Ha'. apply (set_nth_other (fun s => slot_wf s = true)); auto.
        unfold slot_wf; simpl. apply dict_free_wf. auto.
      * apply set_nth_same; unfold P; simpl; auto. split; [apply dict_free_wf; auto|].
        apply (dict_free_not_dict d Hdf).
    + unfold getMinimalDictionaryEncodedColumn in H.
      destruct (dedup_loop Nat.eqb ix0 [] []) as [reps idx].
      apply (Hfin _ _ H).
      * intros a' Ha'. apply (set_nth_other (fun s => slot_wf s = true)); auto.
        unfold slot_wf; simpl. apply dict_free_wf, index_dict_free. auto.
      * apply set_nth_same; unfold P; simpl; auto.
        split; [apply dict_free_wf, index_dict_free; auto|].
        apply (dict_free_not_dict _ (index_dict_free d reps Hdf)).
Qed.

Lemma replace_loop_const_rows : forall args b nr can ix b' ix',
  replace_loop b args nr can ix = Ok (b', ix') ->
  forall a, In a args -> slot_isConst (getByPosition b a) = true ->
    exists d, column (getByPosition b' a) = Some (CConst d nr).
Proof.
  induction args as [|a0 r IH]; intros b nr can ix b' ix' H a Ha Hc; [destruct Ha|].
  simpl in H.
  destruct (in_dec Nat.eq_dec a r) as [Hin|Hin].
  - unfold slot_isConst in Hc.
    destruct (column (getByPosition b a0)) as [[]|] eqn:Ec; split_match H;
      eapply IH; eauto;
      unfold slot_isConst; rewrite getByPosition_set_nth ||
        (rewrite Hc; reflexivity);
      destruct (Nat.eqb_spec a0 a); simpl; try (rewrite Hc; reflexivity);
      destruct (a0 <? length b); simpl; auto; try (rewrite Hc; reflexivity);
      subst; rewrite Ec in Hc; discriminate.
  - destruct Ha as [<-|Ha]; [|contradiction].
    unfold slot_isConst in Hc.
    destruct (column (getByPosition b a0)) as [[]|] eqn:Ec; try discriminate.
    destruct (replace_loop_frame _ _ _ _ _ _ _ H) as [_ Hj]. rewrite Hj by auto.
    rewrite getByPosition_set_nth, Nat.eqb_refl. simpl.
    destruct (Nat.ltb_spec a0 (length b)); simpl.
    + eexists. reflexivity.
    + rewrite getByPosition_out in Ec by lia. discriminate.
Qed.

(** [replaceColumnsWithDictionaryByNestedAndGetDictionaryIndexes] keeps
    the length of the block and changes no slot outside the arguments. *)
Theorem replaceColumns_frame : forall b args can b' ix,
  replaceColumnsWithDictionaryByNestedAndGetDictionaryIndexes b args can = Ok (b', ix) ->
  length b' = length b /\ forall j, ~ In j args -> getByPosition b' j = getByPosition b j.
Proof.
  intros b args can b' ix H.
  unfold replaceColumnsWithDictionaryByNestedAndGetDictionaryIndexes in H.
  destruct (dictionary_indexes b args None 0) as [[ix0 nr]|e]; cbn [bind] in H; [|discriminate].
  eapply replace_loop_frame; eauto.
Qed.

(** After [replaceColumnsWithDictionaryByNestedAndGetDictionaryIndexes]
    succeeds, no argument column is dictionary-encoded any more, when the
    dictionaries of the arguments hold plain values. *)
Theorem replaceColumns_no_dictionary : forall b args can b' ix,
  (forall a, In a args -> slot_wf (getByPosition b a) = true) ->
  replaceColumnsWithDictionaryByNestedAndGetDictionaryIndexes b args can = Ok (b', ix) ->
  forall a, In a args -> slot_isDict (getByPosition b' a) = false.
Proof.
  intros b args can b' ix Hwf H a Ha.
  unfold replaceColumnsWithDictionaryByNestedAndGetDictionaryIndexes in H.
  destruct (dictionary_indexes b args None 0) as [[ix0 nr]|e]; cbn [bind] in H; [|discriminate].
  eapply replace_loop_nodict; eauto.
Qed.

(** After [replaceColumnsWithDictionaryByNestedAndGetDictionaryIndexes]
    succeeds, every argument that was a constant is a constant of
    [num_rows] rows: the size of the dictionary of the dictionary-encoded
    argument, and 0 when there is none. *)
Theorem replaceColumns_constants_resized : forall b args can b' ix a,
  replaceColumnsWithDictionaryByNestedAndGetDictionaryIndexes b args can = Ok (b', ix) ->
  In a args -> slot_isConst (getByPosition b a) = true ->
  exists d, column (getByPosition b' a) =
    Some (CConst d (match dictionary_arguments b args with
                    | [CWithDictionary dict _ _] => size dict
                    | _ => 0
                    end)).
Proof.
  intros b args can b' ix a H Ha Hc.
  unfold replaceColumnsWithDictionaryByNestedAndGetDictionaryIndexes in H.
  rewrite dictionary_indexes_closed in H.
  destruct (dictionary_arguments b args) as [|[] [|c' r]]; cbn [bind] in H; try discriminate;
    eapply replace_loop_const_rows; eauto.
Qed.

Lemma dictionary_arguments_ext : forall bl bl' r,
  (forall a, In a r ->
     column (getByPosition bl' a) = column (getByPosition bl a) \/
     (slot_isDict (getByPosition bl' a) = false /\ slot_isDict (getByPosition bl a) = false)) ->
  dictionary_arguments bl' r = dictionary_arguments bl r.
Proof.
  intros bl bl' r. unfold dictionary_arguments.
  induction r as [|a r IH]; intros H; simpl; auto.
  rewrite IH by (intros; apply H; right; auto).
  destruct (H a (or_introl eq_refl)) as [E|[E1 E2]]; [rewrite E; reflexivity|].
  unfold slot_isDict in E1, E2.
  destruct (column (getByPosition bl' a)) as [[]|], (column (getByPosition bl a)) as [[]|];
    try discriminate; reflexivity.
Qed.

Lemma dictionary_arguments_in : forall bl r a, In a r ->
  slot_isDict (getByPosition bl a) = true -> dictionary_arguments bl r <> [].
Proof.
  intros bl r a Ha Hd E. unfold slot_isDict in Hd.
  destruct (column (getByPosition bl a)) as [[]|] eqn:Ec; try discriminate.
  assert (Hin : In (CWithDictionary dictionary indexes shared) (dictionary_arguments bl r)).
  { unfold dictionary_arguments. apply in_flat_map. exists a. split; auto.
    rewrite Ec. left. reflexivity. }
  rewrite E in Hin. destruct Hin.
Qed.

Lemma dictionary_arguments_shape : forall b args c, In c (dictionary_arguments b args) ->
  exists d ix sh, c = CWithDictionary d ix sh.
Proof.
  intros b args c H. unfold dictionary_arguments in H.
  apply in_flat_map in H as [a [_ Hc]].
  destruct (column (getByPosition b a)) as [[]|]; simpl in Hc; try contradiction.
  destruct Hc as [<-|[]]. eauto.
Qed.

(** With at most one dictionary-encoded argument column, typed
    [LowCardinality], the second loop of
    [replaceColumnsWithDictionaryByNestedAndGetDictionaryIndexes]
    succeeds, and a well-formed slot that is not constant stays so. *)
Lemma replace_loop_keeps_nonconst : forall args bl nr can ix j,
  length (dictionary_arguments bl args) <= 1 ->
  (forall a, In a args -> slot_isDict (getByPosition bl a) = true ->
     is_lowcardinality (type (getByPosition bl a)) = true) ->
  slot_wf (getByPosition bl j) = true -> slot_isConst (getByPosition bl j) = false ->
  exists bl' ix', replace_loop bl args nr can ix = Ok (bl', ix') /\
    slot_wf (getByPosition bl' j) = true /\ slot_isConst (getByPosition bl' j) = false.
Proof.
  induction args as [|a r IH]; intros bl nr can ix j Hn Hlc Hw Hc; simpl; [eauto|].
  assert (Hlc' : forall a', In a' r -> slot_isDict (getByPosition bl a') = true ->
                   is_lowcardinality (type (getByPosition bl a')) = true)
    by (intros; apply Hlc; auto; right; auto).
  assert (Hcons : dictionary_arguments bl (a :: r) =
            match column (getByPosition bl a) with
            | Some (CWithDictionary d ix0 sh) => [CWithDictionary d ix0 sh]
            | _ => [] end ++ dictionary_arguments bl r) by reflexivity.
  destruct (column (getByPosition bl a)) as [c|] eqn:Ec;
    [|apply IH; auto; rewrite Hcons in Hn; exact Hn].
  assert (Hlt : a < length bl).
  { destruct (Nat.ltb_spec a (length bl)); auto.
    rewrite getByPosition_out in Ec by lia. discriminate. }
  assert (Hgo : forall x ix2, (j = a -> slot_isConst x = false /\ slot_wf x = true) ->
            (In a r -> slot_isDict x = false /\ slot_isDict (getByPosition bl a) = false) ->
            exists bl' ix', replace_loop (set_nth bl a x) r nr can ix2 = Ok (bl', ix') /\
              slot_wf (getByPosition bl' j) = true /\ slot_isConst (getByPosition bl' j) = false).
  { intros x ix2 Hx Hxd.
    assert (Hother : forall a', a' <> a ->
              getByPosition (set_nth bl a x) a' = getByPosition bl a').
    { intros a' Hne. rewrite getByPosition_set_nth.
      destruct (Nat.eqb_spec a a'); [congruence|reflexivity]. }
    assert (Hat : getByPosition (set_nth bl a x) a = x).
    { rewrite getByPosition_set_nth, Nat.eqb_refl. apply Nat.ltb_lt in Hlt. rewrite Hlt.
      reflexivity. }
    apply IH.
    - rewrite Hcons, length_app in Hn.
      rewrite (dictionary_arguments_ext bl); [lia|].
      intros a' Ha'. destruct (Nat.eq_dec a' a) as [->|Hne].
      + right. rewrite Hat. apply Hxd. auto.
      + left. rewrite Hother; auto.
    - intros a' Ha' Hd. destruct (Nat.eq_dec a' a) as [->|Hne].
      + rewrite Hat in Hd. destruct (Hxd Ha') as [Hx' _]. congruence.
      + rewrite Hother in * by auto. auto.
    - destruct (Nat.eq_dec j a) as [->|Hne]; [rewrite Hat; apply Hx; auto|rewrite Hother; auto].
    - destruct (Nat.eq_dec j a) as [->|Hne]; [rewrite Hat; apply Hx; auto|rewrite Hother; auto]. }
  destruct c as [v|d k|c m|d ix0 sh|d o|cs]; cbv beta iota zeta;
    try (apply IH; auto; rewrite Hcons in Hn; exact Hn).
  - apply Hgo.
    + intros ->. unfold slot_isConst in Hc. rewrite Ec in Hc. discriminate.
    + intros _. unfold slot_isDict. rewrite Ec. auto.
  - assert (Hnr : ~ In a r).
    { intros Har. rewrite Hcons in Hn. simpl in Hn.
      destruct (dictionary_arguments bl r) eqn:Er; [|simpl in Hn; lia].
      apply (dictionary_arguments_in bl r a Har); auto.
      unfold slot_isDict. rewrite Ec. reflexivity. }
    assert (Hlca := Hlc a (or_introl eq_refl)).
    unfold slot_isDict in Hlca. rewrite Ec in Hlca. specialize (Hlca eq_refl).
    assert (Hwd : j = a -> dict_free d = true /\ isColumnConst d = false).
    { intros ->. unfold slot_wf in Hw. rewrite Ec in Hw. simpl in Hw.
      apply andb_true_iff in Hw as [H1 H2]. apply negb_true_iff in H2. auto. }
    destruct (type (getByPosition bl a)) as [| | | |dt]; try discriminate.
    cbv beta iota zeta. destruct can.
    + apply Hgo; [|intros Har; contradiction].
      intros Hja. destruct (Hwd Hja) as [Hdf Hnc].
      unfold slot_isConst, slot_wf. simpl. split; auto. apply dict_free_wf. auto.
    + unfold getMinimalDictionaryEncodedColumn.
      destruct (dedup_loop Nat.eqb ix0 [] []) as [reps idx]. cbv beta iota zeta.
      apply Hgo; [|intros Har; contradiction].
      intros Hja. destruct (Hwd Hja) as [Hdf Hnc].
      unfold slot_isConst, slot_wf. simpl. rewrite index_isColumnConst. split; auto.
      apply dict_free_wf, index_dict_free. auto.
Qed.

(** C6: an always-constant index inside the argument list whose argument
    column is not constant makes [execute] fail with [ILLEGAL_COLUMN]; no
    result is written and the kernel is not called.  This holds when the
    result type is not dictionary-encoded or the dictionary default is off,
    and otherwise whenever [execute] reaches the inner dispatcher: at most
    one dictionary-encoded argument column, each typed [LowCardinality] and
    not in the result slot, and no hit in the result cache.  The argument
    column is assumed well formed (its dictionaries hold plain,
    non-constant values). *)
Theorem always_constant_violation : forall f cache b args result n i,
  (useDefaultImplementationForColumnsWithDictionary f = false \/
   is_lowcardinality (type (getByPosition b result)) = false \/
   (length (dictionary_arguments b args) <= 1 /\
    (forall a, In a args -> slot_isDict (getByPosition b a) = true ->
       a <> result /\ is_lowcardinality (type (getByPosition b a)) = true) /\
    (forall c d ix, cache = Some c -> canBeExecutedOnDefaultArguments f = true ->
       dictionary_arguments b args = [CWithDictionary d ix true] ->
       find (fun e => key_eqb (fst e) (d, size d)) (cache_entries c) = None))) ->
  In i (getArgumentsThatAreAlwaysConstant f) -> i < length args ->
  slot_isConst (getByPosition b (nth i args 0)) = false ->
  slot_wf (getByPosition b (nth i args 0)) = true ->
  execute f cache b args result n = Err ILLEGAL_COLUMN.
Proof.
  intros f cache b args result n i Hcase Hin Hlt Hc Hw.
  assert (Hj : In (nth i args 0) args) by (apply nth_In; auto).
  assert (Hplain : useDefaultImplementationForColumnsWithDictionary f = false \/
                   is_lowcardinality (type (getByPosition b result)) = false ->
                   execute f cache b args result n = Err ILLEGAL_COLUMN).
  { intros Hpl. rewrite execute_prepared by auto. unfold dispatch_fuel.
    rewrite (exec_always_constant_violation _ _ _ _ _ _ i); auto.
    destruct (prepared_block_preserves
                (fun s => slot_wf s = true /\ slot_isConst s = false)
                f b args (nth i args 0) strip_slot_nonconst) as [_ H]; auto. }
  destruct Hcase as [H|[H|[Hdn [Hdt Hcache]]]]; try (apply Hplain; auto; fail).
  destruct (useDefaultImplementationForColumnsWithDictionary f) eqn:Hd;
    [|apply Hplain; auto].
  destruct (type (getByPosition b result)) as [| | | |dt] eqn:Ht;
    try (apply Hplain; right; reflexivity).
  set (bwd := block_without_dicts_of b args).
  set (bw := set_nth bwd result {| column := column (getByPosition bwd result); type := dt |}).
  assert (Hcol : forall a, In a args -> column (getByPosition bw a) = column (getByPosition b a)).
  { intros a Ha. unfold bw. rewrite getByPosition_set_nth.
    destruct ((result =? a) && (result <? length bwd)) eqn:E.
    - apply andb_true_iff in E as [E _]. apply Nat.eqb_eq in E. subst a. simpl.
      unfold bwd. rewrite block_without_dicts_arg; auto.
    - unfold bwd. rewrite block_without_dicts_arg; auto. }
  assert (Hty : forall a, In a args -> a <> result ->
            type (getByPosition bw a) = type (getByPosition b a)).
  { intros a Ha Hne. unfold bw. rewrite getByPosition_set_nth.
    destruct (Nat.eqb_spec result a); [congruence|]. simpl.
    unfold bwd. rewrite block_without_dicts_arg; auto. }
  assert (Hda : dictionary_arguments bw args = dictionary_arguments b args).
  { apply dictionary_arguments_ext. intros a Ha. left. auto. }
  assert (Hrep : forall nr ix, exists bw2 ix2,
            replace_loop bw args nr (canBeExecutedOnDefaultArguments f) ix = Ok (bw2, ix2) /\
            slot_wf (getByPosition bw2 (nth i args 0)) = true /\
            slot_isConst (getByPosition bw2 (nth i args 0)) = false).
  { intros nr ix. apply replace_loop_keeps_nonconst.
    - rewrite Hda. auto.
    - intros a Ha Hda'. unfold slot_isDict in Hda'. rewrite Hcol in Hda' by auto.
      destruct (Hdt a Ha Hda') as [Hne Hlc]. rewrite Hty; auto.
    - unfold slot_wf. rewrite Hcol; auto.
    - unfold slot_isConst. rewrite Hcol; auto. }
  assert (Htail : forall nr ix,
            dictionary_indexes bw args None 0 = Ok (ix, nr) ->
            exists bw2 ix2,
              replaceColumnsWithDictionaryByNestedAndGetDictionaryIndexes bw args
                (canBeExecutedOnDefaultArguments f) = Ok (bw2, ix2) /\
              executeWithoutColumnsWithDictionary (dispatch_fuel b args) f bw2 args result
                (rows bw2) = Err ILLEGAL_COLUMN).
  { intros nr ix Hdi. unfold replaceColumnsWithDictionaryByNestedAndGetDictionaryIndexes.
    rewrite Hdi. cbn [bind].
    destruct (Hrep nr ix) as [bw2 [ix2 [Hrl [Hw2 Hc2]]]]. rewrite Hrl. cbn [bind].
    exists bw2, ix2. split; auto.
    unfold dispatch_fuel. apply (exec_always_constant_violation _ _ _ _ _ _ i); auto. }
  unfold execute. cbv zeta. rewrite Hd, Ht. fold bwd. fold bw.
  rewrite findLCA_closed.
  rewrite dictionary_indexes_closed, Hda in Htail.
  destruct (dictionary_arguments b args) as [|c0 [|c1 r]] eqn:Eda; [| |simpl in Hdn; lia].
  - destruct (Htail 0 None eq_refl) as [bw2 [ix2 [Hr He]]].
    cbn [bind]. destruct cache as [c|]; cbv beta iota;
      rewrite Hr; cbn [bind]; rewrite He; reflexivity.
  - destruct (dictionary_arguments_shape b args c0) as [d [ix [sh ->]]];
      [rewrite Eda; left; reflexivity|].
    destruct (Htail (size d) (Some ix) eq_refl) as [bw2 [ix2 [Hr He]]].
    cbn [bind].
    destruct cache as [c|]; [destruct sh; [destruct (canBeExecutedOnDefaultArguments f) eqn:Ecbe|]|];
      cbv beta iota.
    1: unfold cache_get; rewrite (Hcache c d ix eq_refl eq_refl eq_refl); cbv beta iota.
    all: rewrite Hr; cbn [bind]; rewrite He; reflexivity.
Qed.

(** *** Dictionary conversion of the arguments *)

Lemma strip_column_idem : forall c, wf_column c = true ->
  recursiveRemoveLowCardinality (recursiveRemoveLowCardinality c)
  = recursiveRemoveLowCardinality c.
Proof.
  induction c using Column_ind'; simpl; intros Hw; try reflexivity.
  - rewrite IHc; auto.
  - apply andb_true_iff in Hw as [Hw _].
    apply strip_column_dict_free. apply index_dict_free. auto.
  - rewrite IHc; auto.
  - f_equal. rewrite map_map. apply map_ext_in. intros a Ha.
    rewrite Forall_forall in H. apply H; auto.
    rewrite forallb_forall in Hw. auto.
Qed.

Lemma lc_free_wf_type : forall t, lc_free t = true -> wf_type t = true.
Proof.
  induction t using DataType_ind'; simpl; intros H'; auto; try discriminate.
  rewrite forallb_forall in *. rewrite Forall_forall in H. intros x Hx. apply H; auto.
Qed.

Lemma strip_type_wf : forall t, wf_type t = true ->
  wf_type (recursiveRemoveLowCardinality_type t) = true.
Proof.
  induction t using DataType_ind'; simpl; intros Hw; auto.
  - rewrite forallb_forall in *. intros x Hx. apply in_map_iff in Hx as [y [<- Hy]].
    rewrite Forall_forall in H. auto.
  - apply lc_free_wf_type. auto.
Qed.

Lemma strip_slot_idem : forall s, slot_wf s = true -> wf_type (type s) = true ->
  strip_slot (strip_slot s) = strip_slot s.
Proof.
  intros [[c|] t] Hw Ht; unfold strip_slot, slot_wf in *; simpl in *.
  - rewrite strip_column_idem, strip_type_idem; auto.
  - rewrite strip_type_idem; auto.
Qed.

(** [convertColumnsWithDictionaryToFull] keeps the length of the block,
    replaces every argument slot by its column and type with the
    dictionary encoding removed at every depth, once even when the
    position is listed twice, and leaves the other slots as they are. *)
Theorem convertColumnsWithDictionaryToFull_spec : forall b args,
  (forall a, In a args ->
     slot_wf (getByPosition b a) = true /\ wf_type (type (getByPosition b a)) = true) ->
  length (convertColumnsWithDictionaryToFull b args) = length b /\
  forall j, getByPosition (convertColumnsWithDictionaryToFull b args) j =
            if member j args then strip_slot (getByPosition b j) else getByPosition b j.
Proof.
  intros b args; revert b; induction args as [|a r IH]; intros b Hwf; [split; auto|].
  change (convertColumnsWithDictionaryToFull b (a :: r)) with
    (convertColumnsWithDictionaryToFull (set_nth b a (strip_slot (getByPosition b a))) r).
  destruct (Hwf a (or_introl eq_refl)) as [Ha1 Ha2].
  set (P := fun s => slot_wf s = true /\ wf_type (type s) = true).
  assert (Hx : P (strip_slot (getByPosition b a))).
  { unfold P, slot_wf, strip_slot in *. simpl. split; [|apply strip_type_wf; auto].
    destruct (column (getByPosition b a)); auto. apply strip_wf; auto. }
  destruct (IH (set_nth b a (strip_slot (getByPosition b a)))) as [Hl Hj].
  { intros a' Ha'. apply (set_nth_other P); auto. apply Hwf. right. auto. }
  split; [rewrite Hl, length_set_nth; reflexivity|].
  intros j. rewrite Hj.
  replace (member j (a :: r)) with ((j =? a) || member j r) by reflexivity.
  rewrite getByPosition_set_nth.
  destruct (Nat.eqb_spec a j) as [<-|Hne].
  - rewrite Nat.eqb_refl. simpl.
    destruct (Nat.ltb_spec a (length b)).
    + destruct (member a r); auto. apply strip_slot_idem; auto.
    + rewrite getByPosition_out by lia. destruct (member a r); reflexivity.
  - simpl. destruct (Nat.eqb_spec j a); [congruence|]. simpl. reflexivity.
Qed.

(** The column and the type strippers of lines 106-155 agree: a column of
    type [t] with its dictionary encoding removed has the type [t] with its
    [LowCardinality] removed. *)
Theorem recursiveRemoveLowCardinality_typed : forall c t,
  has_type c t = true ->
  has_type (recursiveRemoveLowCardinality c) (recursiveRemoveLowCardinality_type t) = true.
Proof.
  induction c using Column_ind'; intros t Ht.
  - destruct t; simpl in *; auto; discriminate.
  - simpl in *. apply IHc. auto.
  - destruct t; simpl in *; auto; discriminate.
  - destruct t; simpl in *; try discriminate.
    unfold convertToFullColumn_dict. apply has_type_index. auto.
  - destruct t; simpl in *; try discriminate. apply IHc. auto.
  - destruct t as [g|t|t|ts nm|t]; simpl in *; try discriminate.
    revert ts Ht. induction H as [|x cs Hx Hcs IH]; intros [|y ys] Ht; simpl in *; auto.
    apply andb_true_iff in Ht as [H1 H2]. rewrite Hx, IH; auto.
Qed.

(** *** Wrapping a result in [Nullable] *)

Lemma nth_repeat_false : forall i k, nth i (repeat false k) false = false.
Proof. induction i; destruct k; simpl; auto. Qed.

Lemma wrap_loop_no_nullable : forall B args result n acc,
  (forall a, In a args -> type_isNullable (type (getByPosition B a)) = false) ->
  wrap_loop B args result n acc = inr acc.
Proof.
  induction args as [|a r IH]; intros result n acc H; simpl; auto.
  rewrite (H a (or_introl eq_refl)). simpl. apply IH. intros; apply H; right; auto.
Qed.

Lemma ColumnNullable_create_ok : forall c m w,
  ColumnNullable_create c m = Ok w -> w = CNullable (convertToFullColumnIfConst c) m.
Proof.
  intros c m w H. unfold ColumnNullable_create in H.
  destruct (_ || _); [discriminate|]. injection H as <-. reflexivity.
Qed.


(** When no argument type is [Nullable], [wrapInNullable] marks no row as
    NULL that was not NULL in the column it wraps: every row of the result
    is NULL exactly when it is NULL in [src]. *)
Theorem wrapInNullable_no_nullable_arguments : forall src B args result n w,
  (forall a, In a args -> type_isNullable (type (getByPosition B a)) = false) ->
  wrapInNullable src B args result n = Ok w ->
  forall i, isNullAt w i = isNullAt src i.
Proof.
  intros src B args result n w Hn H i. unfold wrapInNullable in H.
  destruct (onlyNull src) eqn:Eo; [injection H as <-; auto|].
  destruct src as [v|d k|c m|d ix sh|d o|cs]; simpl in H;
    rewrite wrap_loop_no_nullable in H by auto;
    apply ColumnNullable_create_ok in H; subst; simpl; rewrite ?nth_repeat_false; auto.
  all: try (simpl in Eo; rewrite Eo; reflexivity).
Qed.

(** *** The outer entry *)

Ltac split_execute H :=
  repeat (unfold bind in H; cbv beta iota zeta in H; try discriminate;
          match type of H with
          | Ok _ = Ok _ => fail 1
          | context [match ?x with _ => _ end] =>
              lazymatch x with
              | executeWithoutColumnsWithDictionary _ _ _ _ _ _ => destruct x eqn:?
              | context [match _ with _ => _ end] => fail
              | _ => destruct x eqn:?
              end
          end).

Lemma execute_shape : forall f cache b args result n b' cache' tr,
  execute f cache b args result n = Ok (b', cache', tr) ->
  exists col, b' = setColumn b result col.
Proof.
  intros f cache b args result n b' cache' tr H.
  unfold execute in H. split_execute H.
  all: injection H as <- <- <-; eexists; reflexivity.
Qed.

(** [execute] writes the result slot and nothing else: the block keeps its
    length, the result slot keeps its type, and every other slot, the
    arguments among them, is left as it was. *)
Theorem execute_frame : forall f cache b args result n b' cache' tr,
  execute f cache b args result n = Ok (b', cache', tr) ->
  length b' = length b /\
  type (getByPosition b' result) = type (getByPosition b result) /\
  forall j, j <> result -> getByPosition b' j = getByPosition b j.
Proof.
  intros f cache b args result n b' cache' tr H.
  destruct (execute_shape _ _ _ _ _ _ _ _ _ H) as [col ->].
  unfold setColumn. split; [apply length_set_nth|]. split.
  - rewrite getByPosition_set_nth, Nat.eqb_refl. simpl.
    destruct (result <? length b); reflexivity.
  - intros j Hj. rewrite getByPosition_set_nth.
    destruct (Nat.eqb_spec result j); [congruence|]. reflexivity.
Qed.

Lemma find_some_filter_shorter : forall {A} (p : A -> bool) l x,
  find p l = Some x -> length (filter (fun e => negb (p e)) l) < length l.
Proof.
  intros A p l x; induction l as [|y l IH]; simpl; intros H; [discriminate|].
  destruct (p y); simpl.
  - pose proof (filter_length_le (fun e => negb (p e)) l). lia.
  - specialize (IH H). lia.
Qed.


Lemma cache_get_bound : forall c k v c',
  cache_get c k = (v, c') ->
  cache_size c' = cache_size c /\
  (length (cache_entries c) <= cache_size c -> length (cache_entries c') <= cache_size c').
Proof.
  intros c k v c' H. unfold cache_get in H.
  destruct (find (fun e => key_eqb (fst e) k) (cache_entries c)) as [[k0 v0]|] eqn:E;
    injection H as <- <-; simpl; split; auto.
  unfold cache_remove. intros Hl.
  pose proof (find_some_filter_shorter (fun e => key_eqb (fst e) k) _ _ E). simpl. lia.
Qed.

Lemma cache_getOrSet_bound : forall c k v0 v c',
  cache_getOrSet c k v0 = (v, c') ->
  cache_size c' = cache_size c /\
  (length (cache_entries c) <= cache_size c -> length (cache_entries c') <= cache_size c').
Proof.
  intros c k v0 v c' H. unfold cache_getOrSet in H.
  destruct (find (fun e => key_eqb (fst e) k) (cache_entries c)) as [[k1 v1]|] eqn:E;
    injection H as <- <-; simpl; split; auto; intros Hl.
  - unfold cache_remove.
    pose proof (find_some_filter_shorter (fun e => key_eqb (fst e) k) _ _ E). simpl. lia.
  - rewrite length_firstn. lia.
Qed.

(** [execute] never creates or drops the dictionary result cache and keeps
    its capacity; the cache holds no more entries than its capacity after
    [execute] when it held no more before. *)
Theorem execute_cache_capacity : forall f cache b args result n b' cache' tr,
  execute f cache b args result n = Ok (b', cache', tr) ->
  option_map cache_size cache' = option_map cache_size cache /\
  forall c c', cache = Some c -> cache' = Some c' ->
    length (cache_entries c) <= cache_size c -> length (cache_entries c') <= cache_size c'.
Proof.
  intros f cache b args result n b' cache' tr H.
  unfold execute in H. split_execute H.
  all: injection H as <- <- <-.
  all: repeat match goal with
         | H : cache_get _ _ = _ |- _ => apply cache_get_bound in H; destruct H
         | H : cache_getOrSet _ _ _ = _ |- _ => apply cache_getOrSet_bound in H; destruct H
         end.
  all: split; [simpl; congruence|].
  all: intros cx cx' E1 E2 Hl; try discriminate.
  all: repeat match goal with
         | E : Some _ = Some _ |- _ => injection E as E; subst
         end.
  all: repeat match goal with
         | H : ?A -> ?B, H' : ?A |- _ => specialize (H H')
         end.
  all: try lia; auto.
  all: rewrite E1 in E2; injection E2 as <-; assumption.
Qed.

(** On a cache hit [execute] does not run the function: when the result
    type is [LowCardinality], the one dictionary-encoded argument has a
    shared dictionary, the function can run on default arguments, and the
    cache holds an entry for the key of that dictionary, the result is the
    cached dictionary with the cached index mapping applied to the
    argument's indexes, and the kernel is not called. *)
Theorem execute_cache_hit : forall f c b args result n dt d ix k v,
  useDefaultImplementationForColumnsWithDictionary f = true ->
  type (getByPosition b result) = TLowCardinality dt ->
  canBeExecutedOnDefaultArguments f = true ->
  dictionary_arguments b args = [CWithDictionary d ix true] ->
  find (fun e => key_eqb (fst e) (d, size d)) (cache_entries c) = Some (k, v) ->
  exists c',
    execute f (Some c) b args result n =
    Ok (setColumn b result
          (CWithDictionary (function_result v) (index_indexes (index_mapping v) ix) true),
        Some c', []).
Proof.
  intros f c b args result n dt d ix k v Hd Hty Hcan Hdict Hfind.
  unfold execute. rewrite Hd, Hty. cbv zeta.
  rewrite findLCA_closed, Hdict. cbn [bind]. rewrite Hcan.
  unfold cache_get. rewrite Hfind. eexists. reflexivity.
Qed.

Lemma exec_trace_short : forall fuel f b args result n c tr,
  executeWithoutColumnsWithDictionary fuel f b args result n = Ok (c, tr) ->
  length tr <= 1.
Proof.
  induction fuel as [|k IH]; intros f b args result n c tr H; [discriminate|].
  rewrite executeWithoutColumnsWithDictionary_S in H.
  unfold defaultImplementationForConstantArguments, defaultImplementationForNulls,
    executeImpl_call in H.
  split_execute H.
  all: inversion H; subst; simpl; try lia.
  all: eapply IH; eassumption.
Qed.

(** [execute] calls the kernel [executeImpl] at most once, on every path:
    the defaults for constants and for [Nullable] arguments and the
    dictionary path each run the inner dispatcher at most once, and a cache
    hit or a constant NULL argument does not call it at all. *)
Theorem execute_kernel_at_most_once : forall f cache b args result n b' cache' tr,
  execute f cache b args result n = Ok (b', cache', tr) ->
  length tr <= 1.
Proof.
  intros f cache b args result n b' cache' tr H.
  unfold execute in H. split_execute H.
  all: injection H as <- <- <-; simpl; try lia.
  all: eapply exec_trace_short; eassumption.
Qed.

Lemma prepared_block_no_args_type : forall f b result,
  type (getByPosition (prepared_block f b []) result) = type (getByPosition b result).
Proof.
  intros f b result. unfold prepared_block.
  destruct (useDefaultImplementationForColumnsWithDictionary f); auto.
  simpl. unfold block_without_dicts_of. simpl. rewrite getByPosition_map.
  destruct (Nat.ltb_spec result (length b)); auto.
  rewrite getByPosition_out by lia. reflexivity.
Qed.

(** With no arguments and a result type that is not [LowCardinality] (or
    the dictionary default off), neither default applies: [execute] calls
    the kernel once, on no argument columns and [input_rows_count] rows, and
    writes what it returns to the result slot. *)
Theorem execute_no_arguments : forall f cache b result n,
  (useDefaultImplementationForColumnsWithDictionary f = false \/
   is_lowcardinality (type (getByPosition b result)) = false) ->
  execute f cache b [] result n =
  Ok (setColumn b result (executeImpl f [] (type (getByPosition b result)) n), cache, [n]).
Proof.
  intros f cache b result n Hcase.
  rewrite execute_prepared by auto.
  unfold dispatch_fuel. simpl list_sum. cbn [executeWithoutColumnsWithDictionary].
  unfold defaultImplementationForConstantArguments.
  rewrite existsb_false_intro by (intros x _; reflexivity).
  simpl. unfold executeImpl_call. simpl. rewrite prepared_block_no_args_type. reflexivity.
Qed.

(** A function that turns every default off (constants, [Nullable]
    arguments, dictionaries) and whose always-constant arguments are
    constants gets its kernel called once, on the argument slots as they
    are and [input_rows_count] rows, and [execute] writes what it returns to
    the result slot. *)
Theorem execute_without_defaults : forall f cache b args result n,
  useDefaultImplementationForConstants f = false ->
  useDefaultImplementationForNulls f = false ->
  useDefaultImplementationForColumnsWithDictionary f = false ->
  (forall i, In i (getArgumentsThatAreAlwaysConstant f) -> i < length args ->
     slot_isConst (getByPosition b (nth i args 0)) = true) ->
  execute f cache b args result n =
  Ok (setColumn b result
        (executeImpl f (map (getByPosition b) args) (type (getByPosition b result)) n),
      cache, [n]).
Proof.
  intros f cache b args result n Hc Hn Hd Halways.
  unfold execute. rewrite Hd. unfold dispatch_fuel.
  cbn [executeWithoutColumnsWithDictionary].
  unfold defaultImplementationForConstantArguments, defaultImplementationForNulls.
  rewrite existsb_false_intro.
  - rewrite Hc, Hn. rewrite !orb_true_r. reflexivity.
  - intros i Hi. destruct (Nat.ltb_spec i (length args)); [|reflexivity].
    rewrite Halways; auto.
Qed.

(** ** Witnesses of the further properties *)

Lemma getNullPresense_null_constant_nullable_witness :
  has_null_constant (getNullPresense null_block [0]) = true /\
  has_nullable (getNullPresense null_block [0]) = true.
Proof.
  split; [reflexivity |].
  apply getNullPresense_null_constant_nullable; reflexivity.
Defined.

Lemma isCompilable_denulled_witness :
  isCompilable (zero_function []) (forallb (fun t => negb (type_isNullable t)))
    [TNullable (TBase GInt32); TBase GString] = true.
Proof.
  destruct (isCompilable_denulled (zero_function [])
              (forallb (fun t => negb (type_isNullable t)))
              [TNullable (TBase GInt32); TBase GString]) as [E _].
  - reflexivity.
  - intros t Ht; simpl in Ht; destruct Ht as [<- | [<- | []]]; reflexivity.
  - rewrite E; reflexivity.
Defined.

Lemma compile_return_type_agrees_witness :
  getReturnTypeWithoutDictionary (zero_function [])
    [nullable_int_slot None; string_slot None] = Ok (TNullable (TBase GString)).
Proof.
  apply (compile_return_type_agrees (zero_function [])
           [nullable_int_slot None; string_slot None] [TBase GInt32; TBase GString]);
    reflexivity.
Defined.

Lemma getReturnType_without_lowcardinality_witness :
  getReturnType (zero_function []) plain_block =
  getReturnTypeWithoutDictionary (zero_function []) plain_block.
Proof.
  apply getReturnType_without_lowcardinality.
  intros a Ha; simpl in Ha; destruct Ha as [<- | [<- | [<- | []]]]; reflexivity.
Defined.

Lemma getReturnTypeWithoutDictionary_nullable_witness :
  type_isNullable (TNullable (TBase GString)) = true /\
  (existsb type_onlyNull (map type [nullable_int_slot None; string_slot None]) = true ->
   TNullable (TBase GString) = TNullable (TBase GNothing)).
Proof.
  apply (getReturnTypeWithoutDictionary_nullable (zero_function []));
    reflexivity.
Defined.

Lemma replaceColumns_frame_witness :
  exists b' ix,
    replaceColumnsWithDictionaryByNestedAndGetDictionaryIndexes dict_plain_block [0; 1] true
      = Ok (b', ix) /\
    length b' = length dict_plain_block /\
    forall j, ~ In j [0; 1] -> getByPosition b' j = getByPosition dict_plain_block j.
Proof.
  destruct (replaceColumnsWithDictionaryByNestedAndGetDictionaryIndexes
              dict_plain_block [0; 1] true) as [[b' ix] | e] eqn:E.
  - exists b', ix; split; [reflexivity |].
    apply (replaceColumns_frame _ _ _ _ _ E).
  - vm_compute in E; discriminate.
Defined.

Lemma replaceColumns_no_dictionary_witness :
  exists b' ix,
    replaceColumnsWithDictionaryByNestedAndGetDictionaryIndexes dict_plain_block [0; 1] true
      = Ok (b', ix) /\
    forall a, In a [0; 1] -> slot_isDict (getByPosition b' a) = false.
Proof.
  destruct (replaceColumnsWithDictionaryByNestedAndGetDictionaryIndexes
              dict_plain_block [0; 1] true) as [[b' ix] | e] eqn:E.
  - exists b', ix; split; [reflexivity |].
    apply (replaceColumns_no_dictionary dict_plain_block [0; 1] true b' ix); [| exact E].
    intros a Ha; simpl in Ha; destruct Ha as [<- | [<- | []]]; reflexivity.
  - vm_compute in E; discriminate.
Defined.

Lemma replaceColumns_constants_resized_witness :
  exists b' ix,
    replaceColumnsWithDictionaryByNestedAndGetDictionaryIndexes dict_const_block [0; 1] true
      = Ok (b', ix) /\
    exists d, column (getByPosition b' 1) = Some (CConst d 1).
Proof.
  destruct (replaceColumnsWithDictionaryByNestedAndGetDictionaryIndexes
              dict_const_block [0; 1] true) as [[b' ix] | e] eqn:E.
  - exists b', ix; split; [reflexivity |].
    apply (replaceColumns_constants_resized _ _ _ _ _ 1 E); simpl; auto.
  - vm_compute in E; discriminate.
Defined.

Lemma convertColumnsWithDictionaryToFull_spec_witness :
  length (convertColumnsWithDictionaryToFull dict_plain_block [0; 0; 1]) = 3 /\
  forall j, getByPosition (convertColumnsWithDictionaryToFull dict_plain_block [0; 0; 1]) j =
            if member j [0; 0; 1] then strip_slot (getByPosition dict_plain_block j)
            else getByPosition dict_plain_block j.
Proof.
  apply convertColumnsWithDictionaryToFull_spec.
  intros a Ha; simpl in Ha; destruct Ha as [<- | [<- | [<- | []]]]; split; reflexivity.
Defined.

Lemma recursiveRemoveLowCardinality_typed_witness :
  has_type (recursiveRemoveLowCardinality dict_column)
    (recursiveRemoveLowCardinality_type (TLowCardinality (TBase GString))) = true.
Proof.
  apply recursiveRemoveLowCardinality_typed; reflexivity.
Defined.


Lemma wrapInNullable_no_nullable_arguments_witness :
  exists w,
    wrapInNullable (CNullable (CVector [1%Z; 2%Z]) [true; false]) plain_block [0; 1] 2 2
      = Ok w /\
    forall i, isNullAt w i = isNullAt (CNullable (CVector [1%Z; 2%Z]) [true; false]) i.
Proof.
  destruct (wrapInNullable (CNullable (CVector [1%Z; 2%Z]) [true; false]) plain_block
              [0; 1] 2 2) as [w | e] eqn:E.
  - exists w; split; [reflexivity |].
    apply (wrapInNullable_no_nullable_arguments _ plain_block [0; 1] 2 2 w); [| exact E].
    intros a Ha; simpl in Ha; destruct Ha as [<- | [<- | []]]; reflexivity.
  - vm_compute in E; discriminate.
Defined.

Lemma execute_frame_witness :
  exists b' cache' tr,
    execute (zero_function []) None plain_block [0; 1] 2 2 = Ok (b', cache', tr) /\
    length b' = length plain_block /\
    type (getByPosition b' 2) = type (getByPosition plain_block 2) /\
    forall j, j <> 2 -> getByPosition b' j = getByPosition plain_block j.
Proof.
  destruct (execute (zero_function []) None plain_block [0; 1] 2 2)
    as [[[b' cache'] tr] | e] eqn:E.
  - exists b', cache', tr; split; [reflexivity |].
    apply (execute_frame _ _ _ _ _ _ _ _ _ E).
  - vm_compute in E; discriminate.
Defined.

Lemma execute_cache_capacity_witness :
  exists b' cache' tr,
    execute (zero_function []) (Some example_cache) dict_plain_block [0; 1] 2 2
      = Ok (b', cache', tr) /\
    option_map cache_size cache' = Some 1 /\
    forall c', cache' = Some c' -> length (cache_entries c') <= cache_size c'.
Proof.
  destruct (execute (zero_function []) (Some example_cache) dict_plain_block [0; 1] 2 2)
    as [[[b' cache'] tr] | e] eqn:E.
  - exists b', cache', tr; split; [reflexivity |].
    destruct (execute_cache_capacity _ _ _ _ _ _ _ _ _ E) as [Hs Hb].
    split; [exact Hs |].
    intros c' Hc; apply (Hb example_cache c' eq_refl Hc); simpl; lia.
  - vm_compute in E; discriminate.
Defined.

Lemma execute_cache_hit_witness :
  exists c',
    execute (zero_function []) (Some example_cache) dict_plain_block [0; 1] 2 2 =
    Ok (setColumn dict_plain_block 2 (CWithDictionary (CVector [5%Z]) [0; 0] true),
        Some c', []).
Proof.
  apply (execute_cache_hit (zero_function []) example_cache dict_plain_block [0; 1] 2 2
           (TBase GString) (CVector [7%Z]) [0; 0] (CVector [7%Z], 1)
           {| dictionary_holder := CVector [7%Z];
              function_result := CVector [5%Z];
              index_mapping := [0] |}); reflexivity.
Defined.

Lemma execute_kernel_at_most_once_witness :
  exists b' cache' tr,
    execute (zero_function []) None (nullable_pair_block [false; true] [false; false])
      [0; 1] 2 2 = Ok (b', cache', tr) /\
    length tr <= 1.
Proof.
  destruct (execute (zero_function []) None (nullable_pair_block [false; true] [false; false])
              [0; 1] 2 2) as [[[b' cache'] tr] | e] eqn:E.
  - exists b', cache', tr; split; [reflexivity |].
    apply (execute_kernel_at_most_once _ _ _ _ _ _ _ _ _ E).
  - vm_compute in E; discriminate.
Defined.

Lemma execute_no_arguments_witness :
  execute (zero_function []) None [string_slot None] [] 0 3 =
  Ok (setColumn [string_slot None] 0 (CVector [0%Z; 0%Z; 0%Z]), None, [3]).
Proof.
  apply (execute_no_arguments (zero_function []) None [string_slot None] 0 3).
  right; reflexivity.
Defined.

Lemma execute_without_defaults_witness :
  execute kernel_only_function None const_dict_block [0; 0] 1 3 =
  Ok (setColumn const_dict_block 1 (CVector [0%Z; 0%Z; 0%Z]), None, [3]).
Proof.
  apply (execute_without_defaults kernel_only_function None const_dict_block [0; 0] 1 3);
    try reflexivity.
  intros i Hi _; simpl in Hi; destruct Hi as [<- | []]; reflexivity.
Defined.

Lemma getReturnType_count_error_witness :
  getReturnTypeWithoutDictionary binary_function plain_block
  = Err NUMBER_OF_ARGUMENTS_DOESNT_MATCH /\
  getReturnType binary_function plain_block = Err NUMBER_OF_ARGUMENTS_DOESNT_MATCH.
Proof.
  apply (getReturnType_count_error binary_function plain_block).
  - reflexivity.
  - simpl. lia.
Defined.

Lemma always_constant_violation_witness :
  execute (zero_function [1]) None dict_plain_block [0; 1] 2 2 = Err ILLEGAL_COLUMN.
Proof.
  apply (always_constant_violation (zero_function [1]) None dict_plain_block [0; 1] 2 2 1).
  - right. right. split; [simpl; lia|]. split.
    + intros a [<- | [<- | []]]; simpl; [|discriminate]. split; [lia | reflexivity].
    + intros c d ix Hc. discriminate.
  - simpl. auto.
  - simpl. lia.
  - reflexivity.
  - reflexivity.
Defined.
